(* Verification of the authorization subsystem of Spautofy
   (src/src/authorize.rs and its callers in src/src/main.rs).

   The Rust types are embedded as Rocq records and inductives; handlers that
   lock the shared [SpautofyConfig] become functions taking the config and
   returning the response together with the (possibly updated) config.
   Network calls are an explicit effect tree [Net]; the clock is a reading in
   nanoseconds passed in where the code calls [Instant::now]. *)

From Stdlib Require Import ZArith List String Ascii Bool Lia.
Import ListNotations.
Open Scope string_scope.
Open Scope Z_scope.
Set Warnings "-register-all".

(* ------------------------------------------------------------------------- *)
(** * Decimal and hexadecimal rendering (Rust's [Display] for integers) *)

Definition digit_char (d : Z) : ascii :=
  if (d <? 10)%Z then ascii_of_nat (Z.to_nat (48 + d))
  else ascii_of_nat (Z.to_nat (87 + d)).

Fixpoint digits_rev (fuel : nat) (base n : Z) : list ascii :=
  match fuel with
  | O => []
  | S f =>
      digit_char (n mod base)
        :: (if n / base =? 0 then [] else digits_rev f base (n / base))
  end.

Definition string_of_list_ascii (l : list ascii) : string :=
  fold_right String EmptyString l.

(** Non-negative integer in the given base, without leading zeros. *)
Definition render_base (base n : Z) : string :=
  string_of_list_ascii (rev (digits_rev 80 base n)).

Definition dec (n : Z) : string := render_base 10 n.
Definition hex (n : Z) : string := render_base 16 n.

(* ------------------------------------------------------------------------- *)
(** * std::net::IpAddr and its [Display] *)

Inductive IpAddr :=
| V4 (a b c d : Z)        (* four octets *)
| V6 (segs : list Z).     (* eight 16-bit segments *)

Definition ipv4_display (a b c d : Z) : string :=
  dec a ++ "." ++ dec b ++ "." ++ dec c ++ "." ++ dec d.

Fixpoint join (sep : string) (l : list string) : string :=
  match l with
  | [] => ""
  | [x] => x
  | x :: r => x ++ sep ++ join sep r
  end.

Definition fmt_subslice (segs : list Z) : string := join ":" (map hex segs).

(** Longest run of zero segments, first one on ties: (start, len).  This is
    the scan of [<Ipv6Addr as Display>::fmt]: the current run is extended at
    every zero segment and replaces the best one when strictly longer. *)
Fixpoint zero_span (i : nat) (cur best : nat * nat) (segs : list Z)
  : nat * nat :=
  match segs with
  | [] => best
  | s :: r =>
      if s =? 0 then
        let cur' := if Nat.eqb (snd cur) 0 then (i, 1%nat)
                    else (fst cur, S (snd cur)) in
        let best' := if Nat.ltb (snd best) (snd cur') then cur' else best in
        zero_span (S i) cur' best' r
      else zero_span (S i) (i, 0%nat) best r
  end.

Definition ipv6_display (segs : list Z) : string :=
  match segs with
  | [0; 0; 0; 0; 0; 65535; hi; lo] =>
      (* [to_ipv4_mapped] *)
      "::ffff:" ++ ipv4_display (hi / 256) (hi mod 256) (lo / 256) (lo mod 256)
  | _ =>
      let '(start, len) := zero_span 0 (0%nat, 0%nat) (0%nat, 0%nat) segs in
      if Nat.ltb 1 len then
        fmt_subslice (firstn start segs) ++ "::"
          ++ fmt_subslice (skipn (start + len) segs)
      else fmt_subslice segs
  end.

Definition ip_display (ip : IpAddr) : string :=
  match ip with
  | V4 a b c d => ipv4_display a b c d
  | V6 segs => ipv6_display segs
  end.

(* ------------------------------------------------------------------------- *)
(** * Configuration: [SpautofyConfigFile] and [SpautofyConfig] *)

Record SpautofyConfigFile := {
  file_address : option IpAddr;
  file_port : option Z;          (* u16 *)
  file_client_id : string;
  file_client_secret : string;
}.

Record SpautofyConfig := {
  address : IpAddr;
  port : Z;                      (* u16 *)
  client_id : string;
  client_secret : string;
  user_auth_code : option string;
  random_state : string;
}.

(** [impl From<&SpautofyConfig> for SpautofyConfigFile] *)
Definition file_of_config (config : SpautofyConfig) : SpautofyConfigFile := {|
  file_address := Some (address config);
  file_port := Some (port config);
  file_client_id := client_id config;
  file_client_secret := client_secret config;
|}.

(** [impl From<SpautofyConfigFile> for SpautofyConfig].  The call to
    [random_state()] samples the thread RNG; its result is the argument
    [sampled] (a 30-character alphanumeric string). *)
Definition config_of_file (sampled : string) (file_config : SpautofyConfigFile)
  : SpautofyConfig := {|
  address := match file_address file_config with
             | Some a => a
             | None => V4 127 0 0 1
             end;
  port := match file_port file_config with Some p => p | None => 3000 end;
  client_id := file_client_id file_config;
  client_secret := file_client_secret file_config;
  user_auth_code := None;
  random_state := sampled;
|}.

(** [SpautofyConfig::needs_auth] *)
Definition needs_auth (config : SpautofyConfig) : bool :=
  match user_auth_code config with None => true | Some _ => false end.

(** [SpautofyConfig::redirect_url]: [format!("http://{}:{}/callback", ..)] *)
Definition redirect_url (config : SpautofyConfig) : string :=
  "http://" ++ ip_display (address config) ++ ":" ++ dec (port config)
    ++ "/callback".

Example redirect_url_default :
  redirect_url (config_of_file "s"
    {| file_address := None; file_port := None;
       file_client_id := "abc"; file_client_secret := "xyz" |})
  = "http://127.0.0.1:3000/callback".
Proof. reflexivity. Qed.

Example ipv6_display_loopback : ip_display (V6 [0;0;0;0;0;0;0;1]) = "::1".
Proof. reflexivity. Qed.

Example ipv6_display_span :
  ip_display (V6 [8190; 3512; 0; 0; 1; 0; 0; 0]) = "1ffe:db8:0:0:1::".
Proof. reflexivity. Qed.

(* ------------------------------------------------------------------------- *)
(** * JSON values written by [serde_json] *)

(** The value tree [serde_json::to_string_pretty] prints; pretty-printing
    itself (whitespace) is not modelled. *)
Inductive Json :=
| JNull
| JNum (n : Z)
| JStr (s : string)
| JObj (fields : list (string * Json)).

Definition json_opt {A} (f : A -> Json) (o : option A) : Json :=
  match o with Some x => f x | None => JNull end.

(** [IpAddr] serializes through its [Display] in human-readable formats. *)
Definition json_ip (ip : IpAddr) : Json := JStr (ip_display ip).

(** [#[derive(Serialize)]] on [SpautofyConfigFile]: fields in declaration
    order, [None] as [null]. *)
Definition json_of_file (f : SpautofyConfigFile) : Json :=
  JObj [("address", json_opt json_ip (file_address f));
        ("port", json_opt JNum (file_port f));
        ("client_id", JStr (file_client_id f));
        ("client_secret", JStr (file_client_secret f))].

(** [#[derive(Serialize)]] on [SpautofyConfig]. *)
Definition json_of_config (c : SpautofyConfig) : Json :=
  JObj [("address", json_ip (address c));
        ("port", JNum (port c));
        ("client_id", JStr (client_id c));
        ("client_secret", JStr (client_secret c));
        ("user_auth_code", json_opt JStr (user_auth_code c));
        ("random_state", JStr (random_state c))].

Definition json_keys (j : Json) : list string :=
  match j with JObj l => map fst l | _ => [] end.

Definition json_field (k : string) (j : Json) : option Json :=
  match j with
  | JObj l =>
      match find (fun kv => String.eqb (fst kv) k) l with
      | Some kv => Some (snd kv)
      | None => None
      end
  | _ => None
  end.

(* ------------------------------------------------------------------------- *)
(** * Requests and URL query encoding *)

Record Request := {
  req_method : string;
  req_url : string;                          (* without the query *)
  req_query : list (string * string);        (* [.query(..)] pairs *)
  req_form : list (string * string);         (* [.form(..)] pairs *)
  req_basic_auth : option (string * option string);
}.

(** [authorization_endpoint!] from src/src/endpoints.rs *)
Definition authorization_endpoint (path : string) : string :=
  "https://accounts.spotify.com" ++ path.

Definition AUTHORIZATION_SCOPES : string :=
  "user-top-read playlist-read-private playlist-modify-private".

(** [form_urlencoded::byte_serialize], the encoder behind
    [RequestBuilder::query]: ASCII alphanumerics and [*-._] pass, space
    becomes [+], every other byte is [%XX] (upper-case hex). *)
Definition upper_hex_char (d : nat) : ascii :=
  if Nat.ltb d 10 then ascii_of_nat (48 + d) else ascii_of_nat (55 + d).

Definition byte_serialize_char (ch : ascii) : string :=
  let n := nat_of_ascii ch in
  if (Nat.leb 48 n && Nat.leb n 57) || (Nat.leb 65 n && Nat.leb n 90)
     || (Nat.leb 97 n && Nat.leb n 122)
     || Nat.eqb n 42 || Nat.eqb n 45 || Nat.eqb n 46 || Nat.eqb n 95
  then String ch EmptyString
  else if Nat.eqb n 32 then "+"
  else String "%" (String (upper_hex_char (n / 16))
                     (String (upper_hex_char (n mod 16)) EmptyString)).

Fixpoint byte_serialize (s : string) : string :=
  match s with
  | EmptyString => EmptyString
  | String ch r => byte_serialize_char ch ++ byte_serialize r
  end.

Definition serialize_pairs (pairs : list (string * string)) : string :=
  join "&" (map (fun kv => byte_serialize (fst kv) ++ "=" ++ byte_serialize (snd kv))
                pairs).

(** [Request::url().to_string()] *)
Definition request_url (r : Request) : string :=
  match req_query r with
  | [] => req_url r
  | q => req_url r ++ "?" ++ serialize_pairs q
  end.

(** [SpautofyConfig::auth_request] (the [build()] of a constant, well-formed
    URL with string pairs does not fail). *)
Definition auth_request (c : SpautofyConfig) : Request := {|
  req_method := "GET";
  req_url := authorization_endpoint "/authorize";
  req_query := [("client_id", client_id c);
                ("response_type", "code");
                ("redirect_uri", redirect_url c);
                ("scope", AUTHORIZATION_SCOPES);
                ("show_dialog", "true");
                ("state", random_state c)];
  req_form := [];
  req_basic_auth := None;
|}.

Definition query_param (k : string) (r : Request) : option string :=
  match find (fun kv => String.eqb (fst kv) k) (req_query r) with
  | Some kv => Some (snd kv)
  | None => None
  end.

(* ------------------------------------------------------------------------- *)
(** * Route handlers of the callback listener *)

(** What a handler hands back to Rocket, or the process exit it performs. *)
Inductive Response :=
| Redirect (to : string)
| Body (text : string)
| Exit (code : Z) (stderr : string).

(** The state a handler can touch: the locked config, the config file on
    disk and the shutdown signal. *)
Record World := {
  cfg : SpautofyConfig;
  config_file : option Json;
  shutdown_notified : bool;
}.

Definition set_cfg (c : SpautofyConfig) (w : World) : World :=
  {| cfg := c; config_file := config_file w; shutdown_notified := shutdown_notified w |}.

Definition set_user_auth_code (code : option string) (c : SpautofyConfig)
  : SpautofyConfig :=
  {| address := address c; port := port c; client_id := client_id c;
     client_secret := client_secret c; user_auth_code := code;
     random_state := random_state c |}.

(** [#[get("/")] index] *)
Definition index (w : World) : Response * World :=
  match user_auth_code (cfg w) with
  | Some _ => (Redirect "/done", w)
  | None => (Redirect "/auth", w)
  end.

(** The outcome of [std::fs::write].  It opens the file with
    [File::create], which truncates it, and then calls [write_all]; a failure
    carries the [io::Error] text and leaves on disk whatever was there at
    that point: the old file when [File::create] failed, an empty or
    partially written file (no config, [None]) when [write_all] failed. *)
Inductive WriteOutcome :=
| WriteOk
| WriteFailed (err : string) (left_on_disk : option Json).

(** [#[get("/done")] done]; [write] is the outcome of [std::fs::write]. *)
Definition done (write : WriteOutcome) (w : World) : Response * World :=
  match user_auth_code (cfg w) with
  | None => (Redirect "/auth", w)
  | Some _ =>
      let file_config := file_of_config (cfg w) in
      match write with
      | WriteOk =>
        (Body "You successfully authorized the app. The web server is going to stop. You can close this window now.",
         {| cfg := cfg w; config_file := Some (json_of_file file_config);
            shutdown_notified := true |})
      | WriteFailed err left_on_disk =>
        (* [eprintln!("Error writing config file: {}", err); exit(1)] *)
        (Exit 1 ("Error writing config file: " ++ err),
         {| cfg := cfg w; config_file := left_on_disk;
            shutdown_notified := shutdown_notified w |})
      end
  end.

(** [#[get("/auth")] auth] *)
Definition auth (w : World) : Response * World :=
  (Redirect (request_url (auth_request (cfg w))), w).

(** [#[get("/callback?<state>&<code>&<error>")] callback] *)
Definition callback (state : string) (code error : option string) (w : World)
  : Response * World :=
  if negb (String.eqb state (random_state (cfg w))) then
    (Exit 1 ("Invalid state: " ++ state), w)
  else
    match error with
    | Some e => (Exit 1 ("User Authentication Error: " ++ e), w)
    | None =>
        match code with
        | Some _ => (Redirect "/done", set_cfg (set_user_auth_code code (cfg w)) w)
        | None =>
            (Exit 1 "Unexpected Error: No code or error returned from Spotify.", w)
        end
    end.

(** The write at the end of [main] (src/src/main.rs): the config returned by
    [authorize] is serialized whole; the result is discarded ([let _ =]). *)
Definition main_write_config (write : WriteOutcome) (config : SpautofyConfig)
  (file : option Json) : option Json :=
  match write with
  | WriteOk => Some (json_of_config config)
  | WriteFailed _ left_on_disk => left_on_disk
  end.

(* ------------------------------------------------------------------------- *)
(** * Tokens: [Access], [AuthorizeError] and the token request *)

Inductive Result (T E : Type) :=
| Ok (t : T)
| Err (e : E).
Arguments Ok {T E} t.
Arguments Err {T E} e.

(** The kinds of [reqwest::Error] this code can meet. *)
Inductive ReqwestError :=
| ConnectError (msg : string)     (* sending the request failed *)
| BodyError (msg : string)        (* reading the response body failed *)
| DecodeError (msg : string).     (* the body is not the expected JSON *)

Inductive AuthorizeError :=
| NoUserAuthCode
| ExpiredUserCode
| RequestError (e : ReqwestError)
| Unknown.

(** An [Instant] is a monotonic-clock reading in nanoseconds. *)
Definition Instant := Z.

Record Access := {
  access_token : string;
  scope : string;
  expires_in : Z;                (* i32 *)
  refresh_token : string;
  received_at : Instant;         (* [#[serde(skip, default = "Instant::now")]] *)
}.

(** [Instant::elapsed] (saturating at zero) and [Duration::as_secs]:
    whole seconds, the sub-second part dropped. *)
Definition elapsed_nanos (now since : Instant) : Z := Z.max 0 (now - since).
Definition as_secs (nanos : Z) : Z := nanos / 1000000000.

(** [expires_in as u64] on an [i32]: sign extension, i.e. modulo 2^64. *)
Definition i32_as_u64 (x : Z) : Z := x mod 2 ^ 64.

(** [Access::is_expired], read at clock [now]. *)
Definition is_expired (a : Access) (now : Instant) : bool :=
  i32_as_u64 (expires_in a) <? as_secs (elapsed_nanos now (received_at a)).

(** [SpautofyConfig::access_token_request] *)
Definition access_token_request (c : SpautofyConfig)
  : Result Request AuthorizeError :=
  match user_auth_code c with
  | None => Err NoUserAuthCode
  | Some code =>
      Ok {| req_method := "POST";
            req_url := authorization_endpoint "/api/token";
            req_query := [];
            req_form := [("grant_type", "authorization_code");
                         ("code", code);
                         ("redirect_uri", redirect_url c)];
            req_basic_auth := Some (client_id c, Some (client_secret c)) |}
  end.

(** The body of an HTTP response as far as [Response::json] sees it. *)
Inductive ResponseBody :=
| BJson (j : Json)
| BText (s : string).            (* not valid JSON *)

Record HttpResponse := {
  status : Z;
  body : Result ResponseBody ReqwestError;   (* outcome of reading the body *)
}.

(** A field that serde's derived [Deserialize] accepts: present exactly once. *)
Definition unique_field (k : string) (l : list (string * Json)) : option Json :=
  match filter (fun kv => String.eqb (fst kv) k) l with
  | [kv] => Some (snd kv)
  | _ => None
  end.

Definition json_string (j : option Json) : option string :=
  match j with Some (JStr s) => Some s | _ => None end.

Definition json_i32 (j : option Json) : option Z :=
  match j with
  | Some (JNum n) => if (-2147483648 <=? n) && (n <=? 2147483647) then Some n else None
  | _ => None
  end.

(** [#[derive(Deserialize)]] on [Access]; unknown fields ([token_type])
    are ignored, [received_at] is [Instant::now()] at deserialization. *)
Definition decode_access (now : Instant) (j : Json) : option Access :=
  match j with
  | JObj l =>
      match json_string (unique_field "access_token" l),
            json_string (unique_field "scope" l),
            json_i32 (unique_field "expires_in" l),
            json_string (unique_field "refresh_token" l) with
      | Some at_, Some sc, Some ei, Some rt =>
          Some {| access_token := at_; scope := sc; expires_in := ei;
                  refresh_token := rt; received_at := now |}
      | _, _, _, _ => None
      end
  | _ => None
  end.

(** [Response::json::<Access>()]: reads the body, then decodes it; the HTTP
    status is not looked at. *)
Definition response_json (now : Instant) (resp : HttpResponse)
  : Result Access ReqwestError :=
  match body resp with
  | Err e => Err e
  | Ok (BText _) => Err (DecodeError "expected value")
  | Ok (BJson j) =>
      match decode_access now j with
      | Some a => Ok a
      | None => Err (DecodeError "invalid type or missing field")
      end
  end.

(** Network effects: a finished computation, or one [Client::execute] whose
    continuation receives the clock reading at which it resumes and the
    outcome of sending the request. *)
Inductive Net (A : Type) :=
| NRet (r : A)
| NExecute (req : Request) (k : Instant -> Result HttpResponse ReqwestError -> Net A).
Arguments NRet {A} r.
Arguments NExecute {A} req k.

Fixpoint network_calls {A} (n : Net A) (now : Instant)
  (world : Request -> Result HttpResponse ReqwestError) : nat :=
  match n with
  | NRet _ => 0
  | NExecute req k => S (network_calls (k now (world req)) now world)
  end.

(** [try_get_access_token config old_access], entered at clock [now]. *)
Definition try_get_access_token (config : SpautofyConfig)
  (old_access : option Access) (now : Instant)
  : Net (Result Access AuthorizeError) :=
  match user_auth_code config with
  | None => NRet (Err NoUserAuthCode)
  | Some _ =>
      let try_refresh := match old_access with
                         | Some access => is_expired access now
                         | None => true
                         end in
      if negb try_refresh then
        NRet (match old_access with Some a => Ok a | None => Err Unknown end)
      else
        match access_token_request config with
        | Err e => NRet (Err e)
        | Ok request =>
            NExecute request (fun t sent =>
              match sent with
              | Err e => NRet (Err (RequestError e))
              | Ok resp =>
                  match response_json t resp with
                  | Ok access => NRet (Ok access)
                  | Err _ => NRet (Err ExpiredUserCode)
                  end
              end)
        end
  end.

(** [get_access_token] *)
Definition get_access_token (config : SpautofyConfig) (now : Instant)
  : Net (Result Access AuthorizeError) :=
  try_get_access_token config None now.

(* ------------------------------------------------------------------------- *)
(** * Concrete runs *)

Definition sample_file : SpautofyConfigFile :=
  {| file_address := None; file_port := None;
     file_client_id := "abc"; file_client_secret := "xyz" |}.

Definition sample_world : World :=
  {| cfg := config_of_file "S1" sample_file; config_file := None;
     shutdown_notified := false |}.

Example auth_url_sample :
  fst (auth sample_world)
  = Redirect ("https://accounts.spotify.com/authorize?client_id=abc&response_type=code"
     ++ "&redirect_uri=http%3A%2F%2F127.0.0.1%3A3000%2Fcallback"
     ++ "&scope=user-top-read+playlist-read-private+playlist-modify-private"
     ++ "&show_dialog=true&state=S1").
Proof. reflexivity. Qed.

Example callback_mismatch_sample :
  callback "S2" (Some "C1") None sample_world
  = (Exit 1 "Invalid state: S2", sample_world).
Proof. reflexivity. Qed.

(* ------------------------------------------------------------------------- *)
(** * Theorems *)

(** C1: the /callback handler.  A state differing from the session's
    [random_state] exits (status 1) and leaves everything untouched; with a
    matching state an [error] exits; otherwise a [code] is stored and the
    client is sent to /done; neither [code] nor [error] exits.  No exiting
    branch changes [user_auth_code]. *)
Theorem callback_contract :
  forall (w : World) (state : string) (code error : option string),
    let res := callback state code error w in
    (state <> random_state (cfg w) ->
       (exists msg, fst res = Exit 1 msg) /\ snd res = w) /\
    (state = random_state (cfg w) -> forall e, error = Some e ->
       (exists msg, fst res = Exit 1 msg) /\ snd res = w) /\
    (state = random_state (cfg w) -> error = None -> forall k, code = Some k ->
       fst res = Redirect "/done" /\
       snd res = set_cfg (set_user_auth_code (Some k) (cfg w)) w) /\
    (state = random_state (cfg w) -> error = None -> code = None ->
       (exists msg, fst res = Exit 1 msg) /\ snd res = w) /\
    (forall n msg, fst res = Exit n msg ->
       user_auth_code (cfg (snd res)) = user_auth_code (cfg w)).
Proof.
  intros w state code error res; subst res; unfold callback.
  destruct (String.eqb_spec state (random_state (cfg w))) as [Heq | Hne];
    simpl.
  - repeat split; intros; try contradiction; subst; simpl in *;
      try (eexists; reflexivity); try reflexivity;
      destruct error; destruct code; simpl in *;
      try discriminate; try reflexivity; try (eexists; reflexivity).
  - repeat split; intros; try contradiction; try (eexists; reflexivity).
Qed.

(** Every handler other than a successful /callback leaves the config as it
    is; the successful /callback changes only [user_auth_code]. *)
Lemma callback_keeps_random_state :
  forall w state code error,
    random_state (cfg (snd (callback state code error w))) = random_state (cfg w).
Proof.
  intros w state code error; unfold callback.
  destruct (String.eqb state (random_state (cfg w))); simpl; [|reflexivity].
  destruct error; [reflexivity|]. destruct code; reflexivity.
Qed.

Lemma done_keeps_cfg :
  forall ok w, cfg (snd (done ok w)) = cfg w.
Proof.
  intros ok w; unfold done.
  destruct (user_auth_code (cfg w)); [destruct ok|]; reflexivity.
Qed.

Lemma index_keeps_world : forall w, snd (index w) = w.
Proof. intros w; unfold index; destruct (user_auth_code (cfg w)); reflexivity. Qed.

(** C3 (counterexample): two successive /auth hits in one listener run
    redirect to the very same URL, with the same [state] token. *)
Lemma auth_twice_same_token :
  let w1 := snd (auth sample_world) in
  fst (auth w1) = fst (auth sample_world) /\
  query_param "state" (auth_request (cfg w1))
  = query_param "state" (auth_request (cfg sample_world)) /\
  query_param "state" (auth_request (cfg w1)) = Some "S1".
Proof. repeat split. Qed.

(** C3 (amended): /auth does not regenerate the correlation token.  It leaves
    the session unchanged and redirects to the authorization URL whose
    [state] is the session's [random_state], so every /auth hit of a
    listener run carries the same token; no route handler changes
    [random_state], which is sampled once, when the config is built from
    the config file. *)
Theorem auth_reuses_token :
  forall w : World,
    snd (auth w) = w /\
    fst (auth w) = Redirect (request_url (auth_request (cfg w))) /\
    query_param "state" (auth_request (cfg w)) = Some (random_state (cfg w)) /\
    fst (auth (snd (auth w))) = fst (auth w) /\
    (forall state code error,
       random_state (cfg (snd (callback state code error w))) = random_state (cfg w)) /\
    (forall ok, random_state (cfg (snd (done ok w))) = random_state (cfg w)) /\
    snd (index w) = w /\
    (forall sampled f, random_state (config_of_file sampled f) = sampled).
Proof.
  intros w.
  split; [reflexivity|]. split; [reflexivity|]. split; [reflexivity|].
  split; [reflexivity|].
  split; [apply callback_keeps_random_state|].
  split; [intros ok; rewrite done_keeps_cfg; reflexivity|].
  split; [apply index_keeps_world|].
  reflexivity.
Qed.

(** C7: writing a config through [SpautofyConfigFile] and building it back
    gives the same client id, client secret, address and port; a file
    without address and port gets 127.0.0.1 and 3000, so its redirect URI is
    http://127.0.0.1:3000/callback. *)
Theorem config_file_roundtrip :
  (forall (sampled : string) (c : SpautofyConfig),
     let c' := config_of_file sampled (file_of_config c) in
     client_id c' = client_id c /\ client_secret c' = client_secret c /\
     address c' = address c /\ port c' = port c) /\
  (forall (sampled cid secret : string),
     let c' := config_of_file sampled
                 {| file_address := None; file_port := None;
                    file_client_id := cid; file_client_secret := secret |} in
     address c' = V4 127 0 0 1 /\ port c' = 3000 /\
     client_id c' = cid /\ client_secret c' = secret /\
     redirect_url c' = "http://127.0.0.1:3000/callback").
Proof.
  split.
  - intros sampled c; simpl; repeat split.
  - intros sampled cid secret; simpl; repeat split.
Qed.

(** C8: the authorization request is a function of the client id, address,
    port and [random_state] alone (the secret and the stored code do not
    enter it); it is a GET on
    https://accounts.spotify.com/authorize whose query is exactly
    client_id, response_type=code, redirect_uri, the fixed scope list,
    show_dialog=true and state = the correlation token. *)
Theorem auth_request_params :
  (forall c : SpautofyConfig,
     req_method (auth_request c) = "GET" /\
     req_url (auth_request c) = "https://accounts.spotify.com/authorize" /\
     req_query (auth_request c) =
       [("client_id", client_id c);
        ("response_type", "code");
        ("redirect_uri", "http://" ++ ip_display (address c) ++ ":"
                           ++ dec (port c) ++ "/callback");
        ("scope", "user-top-read playlist-read-private playlist-modify-private");
        ("show_dialog", "true");
        ("state", random_state c)]) /\
  (forall (c : SpautofyConfig) (secret : string) (code : option string),
     auth_request {| address := address c; port := port c;
                     client_id := client_id c; client_secret := secret;
                     user_auth_code := code; random_state := random_state c |}
     = auth_request c).
Proof.
  split.
  - intros c; repeat split.
  - intros c secret code; reflexivity.
Qed.

(** C10: a config built from the config file never holds an authorization
    code, so it needs a browser handshake. *)
Theorem loaded_config_needs_auth :
  forall (sampled : string) (f : SpautofyConfigFile),
    user_auth_code (config_of_file sampled f) = None /\
    needs_auth (config_of_file sampled f) = true.
Proof. intros; split; reflexivity. Qed.

(** A successful handshake of [sample_world]: callback with the right state
    and a code, then /done, then the write at the end of [main]. *)
Definition sample_after_callback : World :=
  snd (callback "S1" (Some "C1") None sample_world).

Definition sample_after_done : World := snd (done WriteOk sample_after_callback).

Definition sample_final_file : option Json :=
  main_write_config WriteOk (cfg sample_after_done) (config_file sample_after_done).

(** C2 (counterexample): after a successful handshake the config file ends
    up holding the authorization code and the state token: /done writes the
    four file fields, but [main] then overwrites the file with the whole
    [SpautofyConfig]. *)
Lemma persisted_file_holds_auth_code :
  config_file sample_after_done
    = Some (JObj [("address", JStr "127.0.0.1"); ("port", JNum 3000);
                  ("client_id", JStr "abc"); ("client_secret", JStr "xyz")]) /\
  option_map json_keys sample_final_file
    = Some ["address"; "port"; "client_id"; "client_secret";
            "user_auth_code"; "random_state"] /\
  option_map (json_field "user_auth_code") sample_final_file = Some (Some (JStr "C1")) /\
  option_map (json_field "random_state") sample_final_file = Some (Some (JStr "S1")).
Proof. repeat split. Qed.

(** C2 (amended): the /done handler, once a code is stored, writes exactly
    the object {address, port, client_id, client_secret}; the write at the
    end of [main] serializes the whole config, adding user_auth_code and
    random_state. *)
Theorem persisted_file_shapes :
  forall (w : World) (k : string),
    let w' := set_cfg (set_user_auth_code (Some k) (cfg w)) w in
    config_file (snd (done WriteOk w')) = Some (json_of_file (file_of_config (cfg w'))) /\
    json_keys (json_of_file (file_of_config (cfg w')))
      = ["address"; "port"; "client_id"; "client_secret"] /\
    (forall c f, main_write_config WriteOk c f = Some (json_of_config c)) /\
    (forall c, json_keys (json_of_config c)
      = ["address"; "port"; "client_id"; "client_secret";
         "user_auth_code"; "random_state"]) /\
    (forall c, json_field "user_auth_code" (json_of_config c)
      = Some (json_opt JStr (user_auth_code c))).
Proof.
  intros w k w'; subst w'.
  repeat split; intros; reflexivity.
Qed.

(** C4: with a stored code and an old [Access] that is not expired, the
    accessor returns that [Access] and performs no network call. *)
Theorem fresh_access_is_pure_read :
  forall (c : SpautofyConfig) (k : string) (a : Access) (now : Instant),
    user_auth_code c = Some k -> is_expired a now = false ->
    try_get_access_token c (Some a) now = NRet (Ok a) /\
    (forall world, network_calls (try_get_access_token c (Some a) now) now world = 0%nat).
Proof.
  intros c k a now Hc He.
  assert (H : try_get_access_token c (Some a) now = NRet (Ok a)).
  { unfold try_get_access_token; rewrite Hc, He; reflexivity. }
  split; [exact H|]. intros world; rewrite H; reflexivity.
Qed.

Definition sample_access (ei : Z) : Access :=
  {| access_token := "tok"; scope := AUTHORIZATION_SCOPES; expires_in := ei;
     refresh_token := "ref"; received_at := 0 |}.

Lemma fresh_access_is_pure_read_witness :
  (user_auth_code (cfg sample_after_callback) = Some "C1" /\
   is_expired (sample_access 3600) 1000000000 = false) /\
  try_get_access_token (cfg sample_after_callback) (Some (sample_access 3600)) 1000000000
  = NRet (Ok (sample_access 3600)).
Proof.
  split; [split; reflexivity|].
  apply (fresh_access_is_pure_read (cfg sample_after_callback) "C1"); reflexivity.
Defined.

(** Resume a pending [Client::execute] with a clock reading and its outcome. *)
Definition resume {A} (n : Net A) (t : Instant) (sent : Result HttpResponse ReqwestError)
  : Net A :=
  match n with
  | NRet r => NRet r
  | NExecute _ k => k t sent
  end.

(** What the provider answers to a consumed or expired code. *)
Definition invalid_grant_response : HttpResponse :=
  {| status := 400;
     body := Ok (BJson (JObj [("error", JStr "invalid_grant");
                              ("error_description", JStr "Invalid authorization code")])) |}.

(** The token request for the code [k] of config [c]. *)
Definition token_request (c : SpautofyConfig) (k : string) : Request :=
  {| req_method := "POST";
     req_url := "https://accounts.spotify.com/api/token";
     req_query := [];
     req_form := [("grant_type", "authorization_code"); ("code", k);
                  ("redirect_uri", redirect_url c)];
     req_basic_auth := Some (client_id c, Some (client_secret c)) |}.

(** C5 (counterexample): the response headers arrive but reading the body
    fails on the connection; the accessor reports [ExpiredUserCode], not a
    [RequestError]. *)
Lemma body_read_failure_is_expired_code :
  resume (get_access_token (cfg sample_after_callback) 0) 1
    (Ok {| status := 200; body := Err (BodyError "connection reset by peer") |})
  = NRet (Err ExpiredUserCode).
Proof. reflexivity. Qed.

(** C5 (amended): without a stored code the accessor fails with
    [NoUserAuthCode] and makes no call.  Otherwise, when it has to fetch a
    token, it sends exactly one token request for the stored code; failure to
    send it gives [RequestError]; once a response arrives, any failure to
    read or decode it as an [Access] (the provider rejecting the code
    included) gives [ExpiredUserCode], which is not a [RequestError]. *)
Theorem token_exchange_errors :
  forall (c : SpautofyConfig) (old : option Access) (now : Instant),
    (user_auth_code c = None ->
       try_get_access_token c old now = NRet (Err NoUserAuthCode) /\
       (forall world, network_calls (try_get_access_token c old now) now world = 0%nat)) /\
    (forall k, user_auth_code c = Some k ->
       (forall a, old = Some a -> is_expired a now = true) ->
       exists K,
         try_get_access_token c old now = NExecute (token_request c k) K /\
         (forall t e, K t (Err e) = NRet (Err (RequestError e))) /\
         (forall t resp a, response_json t resp = Ok a -> K t (Ok resp) = NRet (Ok a)) /\
         (forall t resp e, response_json t resp = Err e ->
            K t (Ok resp) = NRet (Err ExpiredUserCode)) /\
         (forall t, K t (Ok invalid_grant_response) = NRet (Err ExpiredUserCode))) /\
    (forall e, ExpiredUserCode <> RequestError e).
Proof.
  intros c old now.
  split; [|split].
  - intros Hc; unfold try_get_access_token; rewrite Hc; split; reflexivity.
  - intros k Hc Hold.
    assert (Hr : (match old with Some access => is_expired access now | None => true end) = true).
    { destruct old as [a|]; [apply Hold; reflexivity | reflexivity]. }
    unfold try_get_access_token; rewrite Hc, Hr; simpl.
    unfold access_token_request; rewrite Hc.
    eexists; split; [reflexivity|].
    split; [reflexivity|].
    split; [intros t resp a Ha; rewrite Ha; reflexivity|].
    split; [intros t resp e He; rewrite He; reflexivity|].
    intros t; reflexivity.
  - intros e; discriminate.
Qed.

(** C6 (counterexample): five and a half seconds after receipt a token with
    [expires_in = 5] is not yet expired, since only whole seconds count. *)
Lemma expiry_truncates_seconds :
  5500000000 - received_at (sample_access 5) > 5 * 1000000000 /\
  is_expired (sample_access 5) 5500000000 = false.
Proof. split; [reflexivity | reflexivity]. Qed.

(** C6 (amended): [is_expired] compares the whole seconds elapsed since
    receipt with [expires_in]; it is false at receipt, and for a
    non-negative [expires_in] it is true exactly once [expires_in + 1]
    whole seconds have elapsed. *)
Theorem is_expired_whole_seconds :
  (forall (a : Access) (now : Instant), now <= received_at a -> is_expired a now = false) /\
  (forall (a : Access) (d : Z), 0 <= expires_in a <= 2147483647 -> 0 <= d ->
     is_expired a (received_at a + d) = ((expires_in a + 1) * 1000000000 <=? d) /\
     is_expired a (received_at a + d) = (expires_in a <? as_secs d)).
Proof.
  split.
  - intros a now Hle; unfold is_expired, elapsed_nanos, as_secs, i32_as_u64.
    replace (Z.max 0 (now - received_at a)) with 0 by lia.
    apply Z.ltb_ge.
    assert (0 <= expires_in a mod 2 ^ 64) by (apply Z.mod_pos_bound; lia).
    rewrite Z.div_0_l by lia. lia.
  - intros a d He Hd; unfold is_expired, elapsed_nanos, as_secs, i32_as_u64.
    replace (received_at a + d - received_at a) with d by lia.
    rewrite Z.max_r by lia.
    rewrite Z.mod_small by lia.
    split; [|reflexivity].
    destruct (Z.ltb_spec (expires_in a) (d / 1000000000)) as [H|H];
      destruct (Z.leb_spec ((expires_in a + 1) * 1000000000) d) as [H'|H'];
      try reflexivity.
    + exfalso. pose proof (Z.mul_div_le d 1000000000). nia.
    + exfalso. assert (expires_in a + 1 <= d / 1000000000).
      { apply Z.div_le_lower_bound; lia. }
      lia.
Qed.

(** C9: a negative [expires_in] (an [i32]) wraps, through the cast to
    [u64], to 2^64 + e, which is at least 2^63; so the token is never
    expired for any elapsed time the clock can produce.  An [Instant] is a
    [timespec] whose seconds are an [i64], so the readings of the monotonic
    clock, all non-negative, lie less than 2^63 seconds apart and
    [Instant::elapsed] is below 2^63 seconds. *)
Theorem negative_expiry_never_expires :
  forall (a : Access) (now : Instant),
    -2147483648 <= expires_in a < 0 ->
    elapsed_nanos now (received_at a) < 2 ^ 63 * 1000000000 ->
    2 ^ 63 <= i32_as_u64 (expires_in a) /\ is_expired a now = false.
Proof.
  intros a now He Hd.
  assert (Hc : i32_as_u64 (expires_in a) = 2 ^ 64 + expires_in a).
  { unfold i32_as_u64.
    rewrite <- (Z.mod_add (expires_in a) 1 (2 ^ 64)) by lia.
    replace (expires_in a + 1 * 2 ^ 64) with (2 ^ 64 + expires_in a) by lia.
    apply Z.mod_small; lia. }
  assert (Hs : as_secs (elapsed_nanos now (received_at a)) < 2 ^ 63).
  { unfold as_secs. apply Z.div_lt_upper_bound; lia. }
  split; [rewrite Hc; lia|].
  unfold is_expired. rewrite Hc. apply Z.ltb_ge. lia.
Qed.

Lemma negative_expiry_never_expires_witness :
  (-2147483648 <= expires_in (sample_access (-5)) < 0 /\
   elapsed_nanos (7 * 1000000000) (received_at (sample_access (-5))) < 2 ^ 63 * 1000000000) /\
  is_expired (sample_access (-5)) (7 * 1000000000) = false.
Proof.
  assert (He : -2147483648 <= expires_in (sample_access (-5)) < 0)
    by (unfold sample_access; cbn [expires_in]; lia).
  assert (Hd : elapsed_nanos (7 * 1000000000) (received_at (sample_access (-5)))
               < 2 ^ 63 * 1000000000)
    by (unfold elapsed_nanos, sample_access; cbn [received_at]; lia).
  split; [split; assumption|].
  exact (proj2 (negative_expiry_never_expires (sample_access (-5)) (7 * 1000000000) He Hd)).
Defined.

(* ------------------------------------------------------------------------- *)
(** * The action selection list of src/src/main.rs *)

Module Selection.

(** [list_format]: [format!("[{}] {}", if is_selected {'X'} else {' '}, name)] *)
Definition list_format (name : string) (is_selected : bool) : string :=
  "[" ++ (if is_selected then "X" else " ") ++ "] " ++ name.

Record ActionSelectionList := {
  action_names : list string;
  selected : list bool;
  list_strings : list string;
  index : nat;
}.

(** [ActionSelectionList::new]: [zip] stops at the shorter list. *)
Definition new (names : list string) (sel : list bool) : ActionSelectionList := {|
  action_names := names;
  selected := sel;
  list_strings := map (fun p => list_format (fst p) (snd p)) (combine names sel);
  index := 0;
|}.

(** [v[i] = x] on a [Vec]; [None] is the out-of-bounds panic. *)
Fixpoint set_nth {A} (l : list A) (i : nat) (x : A) : option (list A) :=
  match l, i with
  | [], _ => None
  | _ :: r, O => Some (x :: r)
  | y :: r, S j => option_map (cons y) (set_nth r j x)
  end.

(** [select]: [selected[index] ^= true], then the row text is rebuilt.
    [None] is a panic on an index out of bounds. *)
Definition select (s : ActionSelectionList) : option ActionSelectionList :=
  match nth_error (selected s) (index s) with
  | None => None
  | Some b =>
      let is_selected := xorb b true in
      match set_nth (selected s) (index s) is_selected with
      | None => None
      | Some sel' =>
          match nth_error (action_names s) (index s) with
          | None => None
          | Some name =>
              match set_nth (list_strings s) (index s) (list_format name is_selected) with
              | None => None
              | Some ls' =>
                  Some {| action_names := action_names s; selected := sel';
                          list_strings := ls'; index := index s |}
              end
          end
      end
  end.

Definition set_index (i : nat) (s : ActionSelectionList) : ActionSelectionList :=
  {| action_names := action_names s; selected := selected s;
     list_strings := list_strings s; index := i |}.

(** [previous] *)
Definition previous (s : ActionSelectionList) : ActionSelectionList :=
  if Nat.ltb 0 (index s) then set_index (index s - 1) s else s.

(** [next]: [self.action_names.len() - 1] is a [usize] subtraction; on an
    empty list it overflows, which panics ([None]) in a debug build. *)
Definition next (s : ActionSelectionList) : option ActionSelectionList :=
  match List.length (action_names s) with
  | O => None
  | S last =>
      if Nat.ltb (index s) last then Some (set_index (S (index s)) s) else Some s
  end.

Inductive KeyEventKind := Press | Release | Repeat.
Inductive KeyCode := Esc | Char (c : ascii) | Enter | Up | Down | OtherKey.
Inductive Event := Key (kind : KeyEventKind) (code : KeyCode) | OtherEvent.

Inductive SelectionAction := Confirm | Cancel | NoAction.

Inductive TuiAction := Quit | TConfirm | TSelect | MoveUp | MoveDown.

Definition tui_action_of (k : KeyCode) : option TuiAction :=
  match k with
  | Esc => Some Quit
  | Char c =>
      if Ascii.eqb c "q"%char then Some Quit
      else if Ascii.eqb c " "%char then Some TConfirm
      else if Ascii.eqb c "k"%char then Some MoveUp
      else if Ascii.eqb c "j"%char then Some MoveDown
      else None
  | Enter => Some TSelect
  | Up => Some MoveUp
  | Down => Some MoveDown
  | OtherKey => None
  end.

(** [handle_events]; [polled] is what [event::poll]/[event::read] deliver
    ([None]: no event within 50 ms; their I/O errors are not modelled).
    [None] as a result is a panic. *)
Definition handle_events (polled : option Event) (s : ActionSelectionList)
  : option (SelectionAction * ActionSelectionList) :=
  match polled with
  | Some (Key Press code) =>
      match tui_action_of code with
      | None => Some (NoAction, s)
      | Some Quit => Some (Cancel, s)
      | Some TConfirm => Some (Confirm, s)
      | Some TSelect => option_map (fun s' => (NoAction, s')) (select s)
      | Some MoveUp => Some (NoAction, previous s)
      | Some MoveDown => option_map (fun s' => (NoAction, s')) (next s)
      end
  | _ => Some (NoAction, s)
  end.

Inductive SelectOutcome :=
| Canceled                              (* [Ok(None)] *)
| Confirmed (s : ActionSelectionList)   (* [Ok(Some(selection))] *)
| Waiting (s : ActionSelectionList)     (* still in the loop *)
| Panicked.

(** The loop of [select_actions] fed with the successive poll results. *)
Fixpoint run_loop (events : list (option Event)) (s : ActionSelectionList)
  : SelectOutcome :=
  match events with
  | [] => Waiting s
  | e :: rest =>
      match handle_events e s with
      | None => Panicked
      | Some (Confirm, s') => Confirmed s'
      | Some (Cancel, _) => Canceled
      | Some (NoAction, s') => run_loop rest s'
      end
  end.

Definition ACTION_NAMES : list string :=
  ["Create playlist of your short term top tracks";
   "Create playlist of your medium term top tracks";
   "Create playlist of your long term top tracks"].

Definition DEFAULT_SELECTION : list bool := [true; true; false].

(** [select_actions] *)
Definition select_actions (events : list (option Event)) : SelectOutcome :=
  run_loop events (new ACTION_NAMES DEFAULT_SELECTION).

(** The invariant the list keeps: one row text per action, matching its
    name and flag, and the cursor on a row. *)
Definition well_formed (s : ActionSelectionList) : Prop :=
  List.length (selected s) = List.length (action_names s) /\
  list_strings s = map (fun p => list_format (fst p) (snd p))
                       (combine (action_names s) (selected s)) /\
  (index s < List.length (action_names s))%nat.

End Selection.

Module SelectionFacts.
Import Selection.

(** Total list update, the effect of [v[i] = x] when [i] is in bounds. *)
Fixpoint upd {A} (l : list A) (i : nat) (x : A) : list A :=
  match l, i with
  | [], _ => []
  | _ :: r, O => x :: r
  | y :: r, S j => y :: upd r j x
  end.

Lemma set_nth_upd {A} (l : list A) i x :
  (i < List.length l)%nat -> set_nth l i x = Some (upd l i x).
Proof.
  revert i; induction l as [|y r IH]; intros [|i] Hi; simpl in *; try lia;
    [reflexivity|]. rewrite IH by lia; reflexivity.
Qed.

Lemma length_upd {A} (l : list A) i x : List.length (upd l i x) = List.length l.
Proof.
  revert i; induction l as [|y r IH]; intros [|i]; simpl; auto.
Qed.

Lemma upd_upd {A} (l : list A) i x y : upd (upd l i x) i y = upd l i y.
Proof.
  revert i; induction l as [|z r IH]; intros [|i]; simpl; auto; rewrite IH; auto.
Qed.

Lemma upd_nth_self {A} (l : list A) i d : upd l i (nth i l d) = l.
Proof.
  revert i; induction l as [|z r IH]; intros [|i]; simpl; auto; rewrite IH; auto.
Qed.

Lemma nth_error_upd_same {A} (l : list A) i x :
  (i < List.length l)%nat -> nth_error (upd l i x) i = Some x.
Proof.
  revert i; induction l as [|z r IH]; intros [|i] Hi; simpl in *; try lia; auto.
  apply IH; lia.
Qed.

Lemma nth_error_upd_other {A} (l : list A) i j x :
  i <> j -> nth_error (upd l i x) j = nth_error l j.
Proof.
  revert i j; induction l as [|z r IH]; intros [|i] [|j] Hij; simpl; auto;
    try contradiction; apply IH; lia.
Qed.

Lemma combine_upd {A B C} (F : A * B -> C) (a : list A) (b : list B) i x d :
  List.length a = List.length b ->
  map F (combine a (upd b i x)) = upd (map F (combine a b)) i (F (nth i a d, x)).
Proof.
  revert b i; induction a as [|y r IH]; intros [|z b] [|i] Hl; simpl in *;
    try discriminate; auto.
  rewrite IH by lia; reflexivity.
Qed.

Definition row (p : string * bool) : string := list_format (fst p) (snd p).

(** The effect of [select] on a well-formed list, in closed form. *)
Lemma select_upd (s : ActionSelectionList) d :
  well_formed s ->
  select s = Some {| action_names := action_names s;
                     selected := upd (selected s) (index s)
                                   (negb (nth (index s) (selected s) false));
                     list_strings := map row (combine (action_names s)
                                   (upd (selected s) (index s)
                                      (negb (nth (index s) (selected s) false))));
                     index := index s |} /\
  nth_error (action_names s) (index s) = Some (nth (index s) (action_names s) d).
Proof.
  intros [Hlen [Hls Hi]].
  assert (Hn : nth_error (action_names s) (index s) = Some (nth (index s) (action_names s) d))
    by (apply nth_error_nth'; exact Hi).
  split; [|exact Hn].
  unfold select.
  rewrite (nth_error_nth' (selected s) false) by lia.
  rewrite set_nth_upd by lia.
  rewrite Hn.
  rewrite set_nth_upd by (rewrite Hls, length_map, length_combine; lia).
  rewrite xorb_true_r.
  rewrite (combine_upd row (action_names s) (selected s) (index s) _ d) by lia.
  rewrite Hls. reflexivity.
Qed.

(** [select] on a well-formed list never panics: it flips the flag under
    the cursor, leaves every other flag, the names and the cursor alone,
    and keeps the list well formed (the row text follows the flag). *)
Theorem select_toggles :
  forall s : ActionSelectionList, well_formed s ->
    exists s', select s = Some s' /\ well_formed s' /\
      action_names s' = action_names s /\ index s' = index s /\
      nth_error (selected s') (index s) = option_map negb (nth_error (selected s) (index s)) /\
      (forall j, j <> index s -> nth_error (selected s') j = nth_error (selected s) j).
Proof.
  intros s Hw.
  destruct (select_upd s "" Hw) as [Hs _].
  destruct Hw as [Hlen [Hls Hi]].
  eexists; split; [exact Hs|]; simpl.
  split; [|split; [reflexivity|split; [reflexivity|split]]].
  - unfold well_formed; simpl. rewrite length_upd.
    split; [exact Hlen|]. split; [reflexivity|exact Hi].
  - rewrite nth_error_upd_same by lia.
    rewrite (nth_error_nth' (selected s) false) by lia. reflexivity.
  - intros j Hj. apply nth_error_upd_other. congruence.
Qed.

Lemma select_toggles_witness :
  well_formed (new ACTION_NAMES DEFAULT_SELECTION) /\
  exists s', select (new ACTION_NAMES DEFAULT_SELECTION) = Some s' /\
             well_formed s' /\ selected s' = [false; true; false].
Proof.
  assert (Hw : well_formed (new ACTION_NAMES DEFAULT_SELECTION))
    by (unfold well_formed; simpl; repeat split; lia).
  split; [exact Hw|].
  destruct (select_toggles _ Hw) as [s' [Hs [Hw' _]]].
  exists s'; split; [exact Hs|]; split; [exact Hw'|].
  vm_compute in Hs. injection Hs as <-. reflexivity.
Defined.

(** Selecting the same row twice gives the list back unchanged. *)
Theorem select_involutive :
  forall s : ActionSelectionList, well_formed s ->
    match select s with Some s' => select s' | None => None end = Some s.
Proof.
  intros s Hw.
  destruct (select_toggles s Hw) as [s1 [H1 [Hw1 [Hn1 [Hi1 _]]]]].
  rewrite H1.
  destruct (select_upd s1 "" Hw1) as [H2 _]. rewrite H2.
  destruct (select_upd s "" Hw) as [H0 _]. rewrite H0 in H1.
  injection H1 as <-. simpl.
  destruct Hw as [Hlen [Hls Hi]].
  rewrite upd_upd.
  assert (Hb : nth (index s) (upd (selected s) (index s)
                 (negb (nth (index s) (selected s) false))) false
               = negb (nth (index s) (selected s) false)).
  { pose proof (nth_error_upd_same (selected s) (index s)
                  (negb (nth (index s) (selected s) false)) ltac:(lia)) as E.
    apply (nth_error_nth _ _ false) in E. exact E. }
  assert (Hls' : list_strings s = map row (combine (action_names s) (selected s)))
    by exact Hls.
  rewrite Hb, negb_involutive, upd_nth_self, <- Hls'.
  destruct s; reflexivity.
Qed.

Lemma select_involutive_witness :
  well_formed (new ACTION_NAMES DEFAULT_SELECTION) /\
  match select (new ACTION_NAMES DEFAULT_SELECTION) with
  | Some s' => select s' | None => None end = Some (new ACTION_NAMES DEFAULT_SELECTION).
Proof.
  assert (Hw : well_formed (new ACTION_NAMES DEFAULT_SELECTION))
    by (unfold well_formed; simpl; repeat split; lia).
  split; [exact Hw|]. exact (select_involutive _ Hw).
Defined.

Lemma well_formed_set_index s i :
  well_formed s -> (i < List.length (action_names s))%nat -> well_formed (set_index i s).
Proof. intros [H1 [H2 H3]] Hi; unfold well_formed; simpl; auto. Qed.

(** [previous] and [next] keep a well-formed list well formed and change
    only the cursor: [previous] stops at the first row, [next] at the last;
    on a well-formed list [next] never panics. *)
Theorem cursor_moves :
  forall s : ActionSelectionList, well_formed s ->
    well_formed (previous s) /\ index (previous s) = Nat.pred (index s) /\
    previous s = set_index (index (previous s)) s /\
    exists s', next s = Some s' /\ well_formed s' /\
      index s' = Nat.min (S (index s)) (List.length (action_names s) - 1) /\
      s' = set_index (index s') s.
Proof.
  intros s Hw. pose proof Hw as [Hlen [Hls Hi]].
  split; [|split; [|split]].
  - unfold previous. destruct (Nat.ltb_spec 0 (index s)); [|exact Hw].
    apply well_formed_set_index; [exact Hw | lia].
  - unfold previous. destruct (Nat.ltb_spec 0 (index s)); simpl; lia.
  - unfold previous. destruct (Nat.ltb_spec 0 (index s)); [reflexivity|].
    destruct s; reflexivity.
  - unfold next. destruct (List.length (action_names s)) as [|last] eqn:E; [lia|].
    destruct (Nat.ltb_spec (index s) last).
    + eexists; split; [reflexivity|]. split.
      * apply well_formed_set_index; [exact Hw | lia].
      * split; [cbn [index set_index]; lia | reflexivity].
    + eexists; split; [reflexivity|]. split; [exact Hw|].
      split; [lia | destruct s; reflexivity].
Qed.

Lemma cursor_moves_witness :
  well_formed (new ACTION_NAMES DEFAULT_SELECTION) /\
  index (previous (new ACTION_NAMES DEFAULT_SELECTION)) = 0%nat.
Proof.
  assert (Hw : well_formed (new ACTION_NAMES DEFAULT_SELECTION))
    by (unfold well_formed; simpl; repeat split; lia).
  split; [exact Hw|].
  exact (proj1 (proj2 (cursor_moves _ Hw))).
Defined.

Ltac close_step :=
  repeat match goal with
  | |- _ /\ _ => split
  | |- ?a <> NoAction -> _ =>
      let H := fresh in intros H; first [reflexivity | exfalso; apply H; reflexivity]
  | |- forall _ _, _ -> _ -> _ =>
      let k := fresh in let c := fresh in let Heq := fresh in let Hk := fresh in
      intros k c Heq Hk; injection Heq as <- _;
      first [split; reflexivity | exfalso; apply Hk; reflexivity]
  | _ => solve [auto]
  end.

(** One step of [handle_events] on a well-formed list never panics, keeps
    the list well formed over the same actions, and a [Confirm] or a
    [Cancel] (space, Esc or q pressed) leaves the list untouched; anything
    but a key press does nothing. *)
Theorem handle_events_step :
  forall (e : option Event) (s : ActionSelectionList), well_formed s ->
    exists a s', handle_events e s = Some (a, s') /\ well_formed s' /\
      action_names s' = action_names s /\ (a <> NoAction -> s' = s) /\
      (forall kind code, e = Some (Key kind code) -> kind <> Press -> a = NoAction /\ s' = s).
Proof.
  intros e s Hw.
  destruct (select_toggles s Hw) as [s1 [Hs1 [Hw1 [Hn1 _]]]].
  destruct (cursor_moves s Hw) as [Hwp [_ [Hp [s2 [Hs2 [Hw2 [_ Hs2e]]]]]]].
  destruct e as [[kind code|]|].
  - destruct kind.
    + unfold handle_events. destruct (tui_action_of code) as [[]|].
      * do 2 eexists; split; [reflexivity|]; close_step.
      * do 2 eexists; split; [reflexivity|]; close_step.
      * rewrite Hs1; simpl. do 2 eexists; split; [reflexivity|]; close_step.
      * do 2 eexists; split; [reflexivity|]. split; [exact Hwp|].
        split; [rewrite Hp; reflexivity|]. close_step.
      * rewrite Hs2; simpl. do 2 eexists; split; [reflexivity|].
        split; [exact Hw2|]. split; [rewrite Hs2e; reflexivity|]. close_step.
      * do 2 eexists; split; [reflexivity|]; close_step.
    + do 2 eexists; split; [reflexivity|]; close_step.
    + do 2 eexists; split; [reflexivity|]; close_step.
  - do 2 eexists; split; [reflexivity|]; close_step.
  - do 2 eexists; split; [reflexivity|]; close_step.
Qed.

Lemma handle_events_step_witness :
  well_formed (new ACTION_NAMES DEFAULT_SELECTION) /\
  exists a s', handle_events (Some (Key Press Enter)) (new ACTION_NAMES DEFAULT_SELECTION)
               = Some (a, s') /\ well_formed s'.
Proof.
  assert (Hw : well_formed (new ACTION_NAMES DEFAULT_SELECTION))
    by (unfold well_formed; simpl; repeat split; lia).
  split; [exact Hw|].
  destruct (handle_events_step (Some (Key Press Enter)) _ Hw) as [a [s' [H1 [H2 _]]]].
  exists a, s'; split; assumption.
Defined.

(** [select_actions] never panics, whatever keys arrive: it either ends
    canceled, or with (or still waiting on) a well-formed list of the three
    actions. *)
Theorem select_actions_safe :
  forall events : list (option Event),
    match select_actions events with
    | Panicked => False
    | Canceled => True
    | Confirmed s | Waiting s =>
        well_formed s /\ action_names s = ACTION_NAMES /\ List.length (selected s) = 3%nat
    end.
Proof.
  intros events. unfold select_actions.
  assert (Hw : well_formed (new ACTION_NAMES DEFAULT_SELECTION))
    by (unfold well_formed; simpl; repeat split; lia).
  assert (Hn : action_names (new ACTION_NAMES DEFAULT_SELECTION) = ACTION_NAMES)
    by reflexivity.
  generalize dependent (new ACTION_NAMES DEFAULT_SELECTION).
  induction events as [|e rest IH]; intros s Hw Hn; simpl.
  - split; [exact Hw|]. split; [exact Hn|]. destruct Hw as [Hl _]. rewrite Hl, Hn. reflexivity.
  - destruct (handle_events_step e s Hw) as [a [s' [H [Hw' [Hn' _]]]]].
    rewrite H. destruct a.
    + split; [exact Hw'|]. split; [congruence|].
      destruct Hw' as [Hl _]. rewrite Hl, Hn', Hn. reflexivity.
    + exact I.
    + apply IH; [exact Hw' | congruence].
Qed.

End SelectionFacts.

(* ------------------------------------------------------------------------- *)
(** * More facts on the handlers and the token accessor *)

Module Server.

(** The routes [user_authorization] mounts: [routes![index, auth, callback,
    done]]. *)
Inductive Route :=
| RIndex
| RAuth
| RCallback (state : string) (code error : option string)
| RDone (write : WriteOutcome).

Definition handle (r : Route) (w : World) : Response * World :=
  match r with
  | RIndex => index w
  | RAuth => auth w
  | RCallback state code error => callback state code error w
  | RDone write => done write w
  end.

(** A run of the listener on a sequence of requests.  Every handler holds
    the config's mutex for its whole body, so the requests take effect one
    after the other; an [exit(1)] ends the process, and with it the run. *)
Fixpoint serve (rs : list Route) (w : World) : list Response * World :=
  match rs with
  | [] => ([], w)
  | r :: rest =>
      match handle r w with
      | (Exit n m, w1) => ([Exit n m], w1)
      | (resp, w1) =>
          match serve rest w1 with
          | (out, w2) => (resp :: out, w2)
          end
      end
  end.

End Server.

Module HandlerFacts.
Import Server.

Definition not_exit (r : Response) : bool :=
  match r with Exit _ _ => false | _ => true end.

(** What a listener run keeps: the four file fields of the config and its
    state token; once the shutdown is signalled, a code is stored and the
    file holds the four fields. *)
Definition listener_inv (F : SpautofyConfigFile) (s : string) (w : World) : Prop :=
  file_of_config (cfg w) = F /\ random_state (cfg w) = s /\
  (shutdown_notified w = true ->
     user_auth_code (cfg w) <> None /\ config_file w = Some (json_of_file F)).

Lemma handle_step :
  forall F s r w, listener_inv F s w -> not_exit (fst (handle r w)) = true ->
    listener_inv F s (snd (handle r w)) /\
    (user_auth_code (cfg (snd (handle r w))) = user_auth_code (cfg w) \/
     exists k, user_auth_code (cfg (snd (handle r w))) = Some k /\
               r = RCallback s (Some k) None).
Proof.
  intros F s r w Hi Hne. destruct Hi as [HF [Hs Hsh]].
  destruct r as [| | st c e | wr]; simpl in *.
  - rewrite index_keeps_world. split; [split; auto | left; reflexivity].
  - split; [split; auto | left; reflexivity].
  - unfold callback in *.
    destruct (String.eqb_spec st (random_state (cfg w))) as [E|E]; simpl in *;
      [|discriminate].
    destruct e; simpl in *; [discriminate|].
    destruct c as [k|]; simpl in *; [|discriminate].
    split.
    + split; [exact HF|]. split; [exact Hs|].
      intros Hsd; split; [discriminate | exact (proj2 (Hsh Hsd))].
    + right; exists k; split; [reflexivity | rewrite E, Hs; reflexivity].
  - unfold done in *.
    destruct (user_auth_code (cfg w)) as [k|] eqn:Hc; [destruct wr|]; simpl in *;
      try discriminate.
    + split; [|left; simpl; congruence].
      split; [exact HF|]. split; [exact Hs|].
      intros _; split; [intros Hn; simpl in Hn; congruence | rewrite HF; reflexivity].
    + split; [split; [exact HF | split; [exact Hs | intros Hsd; rewrite Hc; exact (Hsh Hsd)]] | left; simpl; congruence].
Qed.

Lemma serve_inv :
  forall F s rs w, listener_inv F s w ->
    (forall n m, ~ In (Exit n m) (fst (serve rs w))) ->
    listener_inv F s (snd (serve rs w)) /\
    (user_auth_code (cfg (snd (serve rs w))) = user_auth_code (cfg w) \/
     exists k, user_auth_code (cfg (snd (serve rs w))) = Some k /\
               In (RCallback s (Some k) None) rs).
Proof.
  intros F s rs; induction rs as [|r rest IH]; intros w Hi Hne.
  - split; [exact Hi | left; reflexivity].
  - assert (Hstep := handle_step F s r w Hi).
    revert Hne Hstep. simpl.
    destruct (handle r w) as [resp w1] eqn:Hh. simpl.
    intros Hne Hstep.
    destruct resp as [to|txt|n m].
    3: { exfalso; apply (Hne n m); left; reflexivity. }
    all: revert Hne; destruct (serve rest w1) as [out w2] eqn:Hs; simpl; intros Hne;
      destruct (Hstep eq_refl) as [Hi1 Hc1];
      assert (Hne' : forall n m, ~ In (Exit n m) (fst (serve rest w1)))
        by (rewrite Hs; intros n m Hin; apply (Hne n m); right; exact Hin);
      destruct (IH w1 Hi1 Hne') as [Hi2 Hc2]; rewrite Hs in Hi2, Hc2; simpl in Hi2, Hc2;
      split; [exact Hi2|];
      destruct Hc2 as [Hc2|[k [Hk Hin]]];
      [ destruct Hc1 as [Hc1|[k [Hk Hr]]];
        [ left; congruence
        | right; exists k; split; [congruence | subst r; left; reflexivity]]
      | right; exists k; split; [exact Hk | right; exact Hin]].
Qed.

(** A listener run from a freshly loaded config that stops through the
    shutdown (no request made the process exit) leaves a code stored, and
    that code came with an accepted callback of the run, one carrying the
    session's state and no error; the state token and the four file fields
    are the loaded ones, and the file on disk holds exactly those four
    fields, whatever the file held before and whatever other requests came
    in between. *)
Theorem listener_stops_with_code :
  forall (sampled : string) (f : SpautofyConfigFile) (file0 : option Json)
         (rs : list Route),
    let w0 := {| cfg := config_of_file sampled f; config_file := file0;
                 shutdown_notified := false |} in
    shutdown_notified (snd (serve rs w0)) = true ->
    (forall n m, ~ In (Exit n m) (fst (serve rs w0))) ->
    (exists k, user_auth_code (cfg (snd (serve rs w0))) = Some k /\
               In (RCallback sampled (Some k) None) rs) /\
    random_state (cfg (snd (serve rs w0))) = sampled /\
    file_of_config (cfg (snd (serve rs w0))) = file_of_config (config_of_file sampled f) /\
    config_file (snd (serve rs w0))
      = Some (json_of_file (file_of_config (config_of_file sampled f))).
Proof.
  intros sampled f file0 rs w0 Hsd Hne.
  assert (Hi0 : listener_inv (file_of_config (config_of_file sampled f)) sampled w0).
  { split; [reflexivity|]. split; [reflexivity|]. intros H; discriminate H. }
  destruct (serve_inv _ _ rs w0 Hi0 Hne) as [[HF [Hs Hsh]] Hc].
  destruct (Hsh Hsd) as [Hcode Hfile].
  split; [|split; [exact Hs | split; [exact HF | exact Hfile]]].
  destruct Hc as [Hc | Hk]; [|exact Hk].
  exfalso; apply Hcode; rewrite Hc; reflexivity.
Qed.

Definition sample_run : list Route :=
  [RIndex; RAuth; RCallback "S1" (Some "C1") None; RIndex; RDone WriteOk].

Lemma listener_stops_with_code_witness :
  let w0 := {| cfg := config_of_file "S1" sample_file; config_file := None;
               shutdown_notified := false |} in
  (shutdown_notified (snd (serve sample_run w0)) = true /\
   (forall n m, ~ In (Exit n m) (fst (serve sample_run w0)))) /\
  exists k, user_auth_code (cfg (snd (serve sample_run w0))) = Some k /\
            In (RCallback "S1" (Some k) None) sample_run.
Proof.
  intros w0.
  assert (H1 : shutdown_notified (snd (serve sample_run w0)) = true) by reflexivity.
  assert (H2 : forall n m, ~ In (Exit n m) (fst (serve sample_run w0))).
  { intros n m Hin; simpl in Hin;
      repeat (destruct Hin as [Hin|Hin]; [discriminate Hin|]); exact Hin. }
  split; [split; assumption|].
  exact (proj1 (listener_stops_with_code "S1" sample_file None sample_run H1 H2)).
Defined.

(** /done with a stored code can be visited again (a reload): with a
    successful write the second visit changes nothing, but a second visit
    whose write fails exits with status 1, printing the I/O error, although
    the shutdown was already signalled, and the config file is then
    whatever the failed write left on disk. *)
Theorem done_repeat :
  forall (w : World) (k err : string) (left_on_disk : option Json),
    user_auth_code (cfg w) = Some k ->
    let w1 := snd (done WriteOk w) in
    done WriteOk w1 = (fst (done WriteOk w), w1) /\
    done (WriteFailed err left_on_disk) w1
    = (Exit 1 ("Error writing config file: " ++ err),
       {| cfg := cfg w; config_file := left_on_disk; shutdown_notified := true |}).
Proof.
  intros w k err left_on_disk Hc w1; subst w1.
  unfold done; rewrite Hc; cbn [cfg config_file shutdown_notified fst snd].
  rewrite Hc; split; reflexivity.
Qed.

Lemma done_repeat_witness :
  user_auth_code (cfg sample_after_callback) = Some "C1" /\
  done (WriteFailed "No space left on device (os error 28)" None)
       (snd (done WriteOk sample_after_callback))
  = (Exit 1 "Error writing config file: No space left on device (os error 28)",
     {| cfg := cfg sample_after_callback; config_file := None; shutdown_notified := true |}).
Proof.
  assert (H : user_auth_code (cfg sample_after_callback) = Some "C1") by reflexivity.
  split; [exact H|].
  exact (proj2 (done_repeat sample_after_callback "C1"
                  "No space left on device (os error 28)" None H)).
Defined.

(** The state token is not used up by a successful callback: a second
    callback with the same state and another code is accepted as well and
    replaces the stored code. *)
Theorem callback_replay_overwrites :
  forall (w : World) (k1 k2 : string),
    let w1 := snd (callback (random_state (cfg w)) (Some k1) None w) in
    callback (random_state (cfg w1)) (Some k2) None w1
    = (Redirect "/done", set_cfg (set_user_auth_code (Some k2) (cfg w)) w).
Proof.
  intros w k1 k2 w1; subst w1.
  unfold callback; rewrite String.eqb_refl; simpl.
  rewrite String.eqb_refl; reflexivity.
Qed.

(** A whole handshake from a freshly loaded config: a callback carrying the
    session's state and a code, then /done, leaves the code stored, signals
    the shutdown and writes a file in which address and port are spelled
    out with the defaults filled in. *)
Theorem handshake_writes_defaults :
  forall (sampled : string) (f : SpautofyConfigFile) (file0 : option Json) (k : string),
    let w0 := {| cfg := config_of_file sampled f; config_file := file0;
                 shutdown_notified := false |} in
    let w1 := snd (callback sampled (Some k) None w0) in
    let w2 := snd (done WriteOk w1) in
    fst (index w1) = Redirect "/done" /\
    user_auth_code (cfg w2) = Some k /\ shutdown_notified w2 = true /\
    option_map (json_field "port") (config_file w2)
      = Some (Some (JNum (match file_port f with Some p => p | None => 3000 end))) /\
    option_map (json_field "address") (config_file w2)
      = Some (Some (JStr (ip_display (match file_address f with
                                      | Some a => a | None => V4 127 0 0 1 end)))).
Proof.
  intros sampled f file0 k w0 w1 w2; subst w0 w1 w2.
  unfold callback; simpl; rewrite String.eqb_refl; simpl.
  repeat split.
Qed.

(** An expired [Access] is handled exactly as no [Access] at all: the
    accessor exchanges the stored authorization code again; the refresh
    token of the old [Access] is never sent. *)
Theorem expired_access_reexchanges_code :
  forall (c : SpautofyConfig) (a : Access) (now : Instant),
    is_expired a now = true ->
    try_get_access_token c (Some a) now = try_get_access_token c None now.
Proof.
  intros c a now H; unfold try_get_access_token; rewrite H; reflexivity.
Qed.

Lemma expired_access_reexchanges_code_witness :
  is_expired (sample_access 10) 20000000000 = true /\
  try_get_access_token (cfg sample_after_callback) (Some (sample_access 10)) 20000000000
  = get_access_token (cfg sample_after_callback) 20000000000.
Proof.
  assert (H : is_expired (sample_access 10) 20000000000 = true) by reflexivity.
  split; [exact H|].
  exact (expired_access_reexchanges_code _ _ _ H).
Defined.

(** A token obtained from the exchange carries the clock reading at which
    the response was decoded, and is not expired at that moment. *)
Theorem fresh_token_not_expired :
  forall (c : SpautofyConfig) (now t : Instant) (resp : HttpResponse) (a : Access),
    resume (get_access_token c now) t (Ok resp) = NRet (Ok a) ->
    received_at a = t /\ is_expired a t = false.
Proof.
  intros c now t resp a H.
  unfold get_access_token, try_get_access_token in H.
  destruct (user_auth_code c) eqn:Hc; [|discriminate].
  unfold access_token_request in H; rewrite Hc in H; simpl in H.
  unfold response_json in H.
  destruct (body resp) as [[j|txt]|e]; try discriminate.
  destruct j as [| | |l]; try discriminate.
  unfold decode_access in H.
  destruct (json_string (unique_field "access_token" l)); [|discriminate].
  destruct (json_string (unique_field "scope" l)); [|discriminate].
  destruct (json_i32 (unique_field "expires_in" l)); [|discriminate].
  destruct (json_string (unique_field "refresh_token" l)); [|discriminate].
  injection H as <-. simpl. split; [reflexivity|].
  unfold is_expired, elapsed_nanos, as_secs, i32_as_u64; simpl.
  rewrite Z.sub_diag; simpl. apply Z.ltb_ge.
  apply Z.mod_pos_bound; lia.
Qed.

Definition sample_token_response : HttpResponse :=
  {| status := 200;
     body := Ok (BJson (JObj [("access_token", JStr "tok"); ("token_type", JStr "Bearer");
                              ("scope", JStr AUTHORIZATION_SCOPES);
                              ("expires_in", JNum 3600); ("refresh_token", JStr "ref")])) |}.

Lemma fresh_token_not_expired_witness :
  let a := {| access_token := "tok"; scope := AUTHORIZATION_SCOPES; expires_in := 3600;
              refresh_token := "ref"; received_at := 5 |} in
  resume (get_access_token (cfg sample_after_callback) 0) 5 (Ok sample_token_response)
    = NRet (Ok a) /\
  (received_at a = 5 /\ is_expired a 5 = false).
Proof.
  intros a.
  assert (H : resume (get_access_token (cfg sample_after_callback) 0) 5
                (Ok sample_token_response) = NRet (Ok a)) by reflexivity.
  split; [exact H|].
  exact (fresh_token_not_expired _ _ _ _ _ H).
Defined.

End HandlerFacts.

(* ------------------------------------------------------------------------- *)
(** * Web API calls: src/src/user_info.rs and src/src/actions *)

Module Api.

(** [serde_json::Value] as the API bodies use it. *)
Inductive Value :=
| VNull
| VBool (b : bool)
| VNum (n : Z)
| VStr (s : string)
| VArr (items : list Value)
| VObj (fields : list (string * Value)).

Record ApiRequest := {
  a_method : string;
  a_url : string;                         (* the formatted URL string *)
  a_query : list (string * string);
  a_headers : list (string * string);
  a_body : option Value;                  (* [.body(json!(..).to_string())] *)
}.

Inductive ApiBody := AJson (v : Value) | AText (s : string).

Record ApiResponse := {
  r_status : Z;
  r_body : Result ApiBody ReqwestError;   (* outcome of reading the body *)
}.

Record Date := { day : Z; month : Z; year : Z }.

(** Effects of the API code: [Client::execute], and [Local::now()]. *)
Inductive ApiNet (A : Type) :=
| ARet (r : A)
| ACall (req : ApiRequest) (k : Result ApiResponse ReqwestError -> ApiNet A)
| ANow (k : Date -> ApiNet A).
Arguments ARet {A} r.
Arguments ACall {A} req k.
Arguments ANow {A} k.

Fixpoint abind {A B} (m : ApiNet A) (f : A -> ApiNet B) : ApiNet B :=
  match m with
  | ARet x => f x
  | ACall req k => ACall req (fun r => abind (k r) f)
  | ANow k => ANow (fun d => abind (k d) f)
  end.

(** [?] on a [Result<_, AuthorizeError>]. *)
Definition atry {A B} (m : ApiNet (Result A AuthorizeError))
  (f : A -> ApiNet (Result B AuthorizeError)) : ApiNet (Result B AuthorizeError) :=
  abind m (fun r => match r with Ok x => f x | Err e => ARet (Err e) end).

(** Running a program against a server [serve] and a calendar [today]:
    the requests sent, in order, and the result. *)
Fixpoint run {A} (serve : ApiRequest -> Result ApiResponse ReqwestError)
  (today : Date) (m : ApiNet A) : list ApiRequest * A :=
  match m with
  | ARet x => ([], x)
  | ACall req k => let '(reqs, x) := run serve today (k (serve req)) in (req :: reqs, x)
  | ANow k => run serve today (k today)
  end.

(** [api_endpoint!] from src/src/endpoints.rs *)
Definition api_endpoint (path : string) : string := "https://api.spotify.com/v1" ++ path.

(** [HeaderValue::from_str]: visible ASCII, obs-text or tab. *)
Definition header_value_ok (s : string) : bool :=
  forallb (fun ch => let n := nat_of_ascii ch in
                     (Nat.leb 32 n && negb (Nat.eqb n 127)) || Nat.eqb n 9)
          (list_ascii_of_string s).

(** [Access::authorize]: [request_builder.bearer_auth(access_token)] adds
    the header [Authorization: Bearer <token>]. *)
Definition authorize (a : Access) (hs : list (string * string)) : list (string * string) :=
  hs ++ [("Authorization", "Bearer " ++ access_token a)].

(** Field lookup of serde's derived [Deserialize]: a field given twice is
    an error, a missing field is [None] for [Option] fields only, unknown
    fields are ignored. *)
Inductive Lookup := Missing | One (v : Value) | Dup.

Definition lookup (k : string) (l : list (string * Value)) : Lookup :=
  match filter (fun kv => String.eqb (fst kv) k) l with
  | [] => Missing
  | [kv] => One (snd kv)
  | _ => Dup
  end.

Definition req_field {T} (dec : Value -> option T) (k : string)
  (l : list (string * Value)) : option T :=
  match lookup k l with One v => dec v | _ => None end.

Definition opt_field {T} (dec : Value -> option T) (k : string)
  (l : list (string * Value)) : option (option T) :=
  match lookup k l with
  | Missing => Some None
  | One VNull => Some None
  | One v => option_map Some (dec v)
  | Dup => None
  end.

Definition dec_string (v : Value) : option string :=
  match v with VStr s => Some s | _ => None end.
Definition dec_bool (v : Value) : option bool :=
  match v with VBool b => Some b | _ => None end.
Definition dec_i32 (v : Value) : option Z :=
  match v with
  | VNum n => if (-2147483648 <=? n) && (n <=? 2147483647) then Some n else None
  | _ => None
  end.

Fixpoint traverse {T} (dec : Value -> option T) (l : list Value) : option (list T) :=
  match l with
  | [] => Some []
  | v :: r =>
      match dec v, traverse dec r with
      | Some x, Some xs => Some (x :: xs)
      | _, _ => None
      end
  end.

Definition dec_vec {T} (dec : Value -> option T) (v : Value) : option (list T) :=
  match v with VArr l => traverse dec l | _ => None end.

Definition obj (v : Value) : option (list (string * Value)) :=
  match v with VObj l => Some l | _ => None end.

Definition obind {A B} (o : option A) (f : A -> option B) : option B :=
  match o with Some x => f x | None => None end.
Notation "'let?' x := o 'in' b" := (obind o (fun x => b))
  (at level 200, x name, b at level 200).

(** The models of src/src/models and [User]. *)
Record User := { display_name : string; id : string }.

Record Artist := {
  artist_id : string; artist_name : string;
  genres : option (list string); popularity : option Z }.

Record Album := {
  album_id : string; album_name : string; album_type : string;
  album_artists : list Artist; total_tracks : Z; release_date : string }.

Record Track := {
  track_id : string; uri : string; track_name : string;
  track_album : Album; track_artists : list Artist }.

Record PlaylistItems := {
  items_href : string; items_total : Z; items_offset : Z;
  items_next : option string; items_previous : option string; items : list Track }.

Record Playlist := {
  playlist_id : string; playlist_name : string; description : string;
  collaborative : bool; playlist_href : string; public : bool;
  tracks : PlaylistItems }.

Record TopTracksResponse := {
  top_href : string; limit : Z; offset : Z; total : Z;
  next : option string; previous : option string; top_items : list Track }.

Definition dec_user (v : Value) : option User :=
  let? l := obj v in
  let? dn := req_field dec_string "display_name" l in
  let? i := req_field dec_string "id" l in
  Some {| display_name := dn; id := i |}.

Definition dec_artist (v : Value) : option Artist :=
  let? l := obj v in
  let? i := req_field dec_string "id" l in
  let? n := req_field dec_string "name" l in
  let? g := opt_field (dec_vec dec_string) "genres" l in
  let? p := opt_field dec_i32 "popularity" l in
  Some {| artist_id := i; artist_name := n; genres := g; popularity := p |}.

Definition dec_album (v : Value) : option Album :=
  let? l := obj v in
  let? i := req_field dec_string "id" l in
  let? n := req_field dec_string "name" l in
  let? t := req_field dec_string "album_type" l in
  let? ars := req_field (dec_vec dec_artist) "artists" l in
  let? tt := req_field dec_i32 "total_tracks" l in
  let? rd := req_field dec_string "release_date" l in
  Some {| album_id := i; album_name := n; album_type := t; album_artists := ars;
          total_tracks := tt; release_date := rd |}.

Definition dec_track (v : Value) : option Track :=
  let? l := obj v in
  let? i := req_field dec_string "id" l in
  let? u := req_field dec_string "uri" l in
  let? n := req_field dec_string "name" l in
  let? al := req_field dec_album "album" l in
  let? ars := req_field (dec_vec dec_artist) "artists" l in
  Some {| track_id := i; uri := u; track_name := n; track_album := al;
          track_artists := ars |}.

Definition dec_playlist_items (v : Value) : option PlaylistItems :=
  let? l := obj v in
  let? h := req_field dec_string "href" l in
  let? t := req_field dec_i32 "total" l in
  let? o := req_field dec_i32 "offset" l in
  let? nx := opt_field dec_string "next" l in
  let? pv := opt_field dec_string "previous" l in
  let? its := req_field (dec_vec dec_track) "items" l in
  Some {| items_href := h; items_total := t; items_offset := o; items_next := nx;
          items_previous := pv; items := its |}.

Definition dec_playlist (v : Value) : option Playlist :=
  let? l := obj v in
  let? i := req_field dec_string "id" l in
  let? n := req_field dec_string "name" l in
  let? d := req_field dec_string "description" l in
  let? c := req_field dec_bool "collaborative" l in
  let? h := req_field dec_string "href" l in
  let? p := req_field dec_bool "public" l in
  let? t := req_field dec_playlist_items "tracks" l in
  Some {| playlist_id := i; playlist_name := n; description := d; collaborative := c;
          playlist_href := h; public := p; tracks := t |}.

Definition dec_top_tracks (v : Value) : option TopTracksResponse :=
  let? l := obj v in
  let? h := req_field dec_string "href" l in
  let? li := req_field dec_i32 "limit" l in
  let? o := req_field dec_i32 "offset" l in
  let? t := req_field dec_i32 "total" l in
  let? nx := opt_field dec_string "next" l in
  let? pv := opt_field dec_string "previous" l in
  let? its := req_field (dec_vec dec_track) "items" l in
  Some {| top_href := h; limit := li; offset := o; total := t; next := nx;
          previous := pv; top_items := its |}.

End Api.

Module ApiCalls.
Import Api.

(** Time ranges of src/src/actions/top_track_playlist.rs and their
    [Display]. *)
Inductive TimeRange := ShortTerm | MediumTerm | LongTerm.

Definition time_range_display (t : TimeRange) : string :=
  match t with
  | ShortTerm => "short_term"
  | MediumTerm => "medium_term"
  | LongTerm => "long_term"
  end.

(** chrono's ["%d-%m-%Y"]: two-digit day and month, the year zero-padded to
    four digits, with a sign outside 0..=9999. *)
Definition pad (w : nat) (s : string) : string :=
  append (string_of_list_ascii (repeat "0"%char (w - String.length s))) s.

Definition format_date (d : Date) : string :=
  pad 2 (dec (day d)) ++ "-" ++ pad 2 (dec (month d)) ++ "-" ++
  (if (0 <=? year d) && (year d <=? 9999) then pad 4 (dec (year d))
   else (if year d <? 0 then "-" else "+") ++ pad 4 (dec (Z.abs (year d)))).

Record UserAccess := { ua_access : Access; ua_user : User }.

Section Calls.

(** The [reqwest::Error] that [build()] reports for an invalid header
    value (the only way these builders fail: the URLs are well formed). *)
Variable builder_error : ReqwestError.

Definition bearer_ok (a : Access) : bool := header_value_ok ("Bearer " ++ access_token a).

(** [request_builder.build()?] followed by [client.execute(request).await?]. *)
Definition send {T} (a : Access) (req : ApiRequest)
  (k : ApiResponse -> ApiNet (Result T AuthorizeError)) : ApiNet (Result T AuthorizeError) :=
  if bearer_ok a then
    ACall req (fun sent => match sent with
                           | Err e => ARet (Err (RequestError e))
                           | Ok resp => k resp
                           end)
  else ARet (Err (RequestError builder_error)).

(** [resp.json::<T>().await?] *)
Definition json {T} (dec : Value -> option T) (resp : ApiResponse)
  : ApiNet (Result T AuthorizeError) :=
  match r_body resp with
  | Err e => ARet (Err (RequestError e))
  | Ok (AText _) => ARet (Err (RequestError (DecodeError "expected value")))
  | Ok (AJson v) =>
      match dec v with
      | Some x => ARet (Ok x)
      | None => ARet (Err (RequestError (DecodeError "invalid type or missing field")))
      end
  end.

(** [get_user_info] *)
Definition get_user_info (a : Access) : ApiNet (Result User AuthorizeError) :=
  send a {| a_method := "GET"; a_url := api_endpoint "/me"; a_query := [];
            a_headers := authorize a []; a_body := None |}
    (json dec_user).

(** [get_user_access] *)
Definition get_user_access (a : Access) : ApiNet (Result UserAccess AuthorizeError) :=
  atry (get_user_info a) (fun user => ARet (Ok {| ua_access := a; ua_user := user |})).

(** [create_playlist].  [json!] builds a [serde_json::Map], which keeps its
    keys sorted. *)
Definition create_playlist (ua : UserAccess) (name : string) (is_public : bool)
  (descr : option string) (is_collaborative : bool)
  : ApiNet (Result Playlist AuthorizeError) :=
  let user_id := id (ua_user ua) in
  send (ua_access ua)
    {| a_method := "POST";
       a_url := api_endpoint ("/users/" ++ user_id ++ "/playlists");
       a_query := [];
       a_headers := authorize (ua_access ua) [];
       a_body := Some (VObj [("collaborative", VBool is_collaborative);
                             ("description", VStr (match descr with
                                                   | Some d => d | None => "" end));
                             ("name", VStr name);
                             ("public", VBool is_public)]) |}
    (json dec_playlist).

(** [create_private_playlist] *)
Definition create_private_playlist (ua : UserAccess) (name : string)
  : ApiNet (Result Playlist AuthorizeError) :=
  create_playlist ua name false None false.

Definition tracks_request (method : string) (ua : UserAccess) (playlist_id : string)
  (track_uris : list string) : ApiRequest :=
  {| a_method := method;
     a_url := api_endpoint ("/playlists/" ++ playlist_id ++ "/tracks");
     a_query := [];
     a_headers := authorize (ua_access ua) [];
     a_body := Some (VObj [("uris", VArr (map VStr track_uris))]) |}.

(** [add_50_to_playlist]: the response ([_resp]) is not looked at. *)
Definition add_50_to_playlist (ua : UserAccess) (playlist_id : string)
  (track_uris : list string) : ApiNet (Result unit AuthorizeError) :=
  send (ua_access ua) (tracks_request "POST" ua playlist_id track_uris)
    (fun _ => ARet (Ok tt)).

(** [update_playlist_tracks]: the response is not looked at either. *)
Definition update_playlist_tracks (ua : UserAccess) (playlist_id : string)
  (track_uris : list string) : ApiNet (Result unit AuthorizeError) :=
  send (ua_access ua) (tracks_request "PUT" ua playlist_id track_uris)
    (fun _ => ARet (Ok tt)).

(** [get_playlist_tracks] *)
Definition get_playlist_tracks (ua : UserAccess) (playlist_id : string)
  : ApiNet (Result PlaylistItems AuthorizeError) :=
  send (ua_access ua)
    {| a_method := "GET";
       a_url := api_endpoint ("/playlists/" ++ playlist_id ++ "/tracks");
       a_query := [];
       a_headers := authorize (ua_access ua) [];
       a_body := None |}
    (json dec_playlist_items).

Definition top_tracks_request (ua : UserAccess) (time_range : TimeRange) : ApiRequest :=
  {| a_method := "GET";
     a_url := api_endpoint "/me/top/tracks";
     a_query := [("time_range", time_range_display time_range); ("limit", "50")];
     a_headers := authorize (ua_access ua) [];
     a_body := None |}.

Definition playlist_name (time_range : TimeRange) (today : Date) : string :=
  "Spautofy " ++ time_range_display time_range ++ " Top Tracks " ++ format_date today.

(** [create_top_track_playlist] (the final [println!] is not modelled). *)
Definition create_top_track_playlist (ua : UserAccess) (time_range : TimeRange)
  : ApiNet (Result unit AuthorizeError) :=
  send (ua_access ua) (top_tracks_request ua time_range) (fun resp =>
    atry (json dec_top_tracks resp) (fun top =>
      ANow (fun today =>
        atry (create_private_playlist ua (playlist_name time_range today)) (fun playlist =>
          let track_uris := map uri (top_items top) in
          atry (update_playlist_tracks ua (playlist_id playlist) track_uris) (fun _ =>
            ARet (Ok tt)))))).

End Calls.

(** The outcome of [main] after the actions were selected and the user
    authorized. *)
Inductive MainOutcome :=
| MainOk
| MainErr (e : AuthorizeError)    (* [Err(MainError::Auth(e))] *)
| MainPanic (i : nat).            (* [selection.selected[i]] out of bounds *)

(** The four [if selection.selected[i]] tests at the end of [main]; [run]
    is the outcome of [create_top_track_playlist] for each time range.
    The result lists the playlists attempted, in order. *)
Fixpoint dispatch (selected : list bool) (run_action : TimeRange -> Result unit AuthorizeError)
  (i : nat) (steps : list (option TimeRange)) : list TimeRange * MainOutcome :=
  match steps with
  | [] => ([], MainOk)
  | st :: rest =>
      match nth_error selected i with
      | None => ([], MainPanic i)
      | Some false => dispatch selected run_action (S i) rest
      | Some true =>
          match st with
          | None => dispatch selected run_action (S i) rest     (* [println!] *)
          | Some tr =>
              match run_action tr with
              | Err e => ([tr], MainErr e)
              | Ok _ => let '(l, o) := dispatch selected run_action (S i) rest in (tr :: l, o)
              end
          end
      end
  end.

Definition main_steps : list (option TimeRange) :=
  [Some ShortTerm; Some MediumTerm; Some LongTerm; None].

Definition main_dispatch (selected : list bool)
  (run_action : TimeRange -> Result unit AuthorizeError) : list TimeRange * MainOutcome :=
  dispatch selected run_action 0 main_steps.

End ApiCalls.

Module ApiFacts.
Import Api ApiCalls.

Definition me_request (a : Access) : ApiRequest :=
  {| a_method := "GET"; a_url := "https://api.spotify.com/v1/me"; a_query := [];
     a_headers := [("Authorization", "Bearer " ++ access_token a)]; a_body := None |}.

(** [get_user_access]: with a token that is a valid header value it sends
    one GET to /v1/me carrying [Authorization: Bearer <token>]; a decoded
    user comes back bound to the very [Access] passed in; a send failure,
    an unreadable body or a body that is no [User] (e.g. a [null]
    display_name) is a [RequestError].  A token that is no valid header
    value fails in [build()] before anything is sent. *)
Theorem get_user_access_call :
  forall (be : ReqwestError) (a : Access)
         (serve : ApiRequest -> Result ApiResponse ReqwestError) (today : Date),
    (bearer_ok a = false ->
       run serve today (get_user_access be a) = ([], Err (RequestError be))) /\
    (bearer_ok a = true ->
       fst (run serve today (get_user_access be a)) = [me_request a] /\
       (forall e, serve (me_request a) = Err e ->
          snd (run serve today (get_user_access be a)) = Err (RequestError e)) /\
       (forall resp v u, serve (me_request a) = Ok resp -> r_body resp = Ok (AJson v) ->
          dec_user v = Some u ->
          snd (run serve today (get_user_access be a))
          = Ok {| ua_access := a; ua_user := u |}) /\
       (forall resp, serve (me_request a) = Ok resp ->
          (forall v, r_body resp = Ok (AJson v) -> dec_user v = None) ->
          exists e, snd (run serve today (get_user_access be a)) = Err (RequestError e))) /\
    (forall l, lookup "display_name" l = One VNull -> dec_user (VObj l) = None).
Proof.
  intros be a serve today; split; [|split].
  - intros H; unfold get_user_access, get_user_info, send; rewrite H; reflexivity.
  - intros H.
    unfold get_user_access, get_user_info, send; rewrite H.
    change {| a_method := "GET"; a_url := api_endpoint "/me"; a_query := [];
              a_headers := authorize a []; a_body := None |} with (me_request a).
    simpl.
    split; [destruct (serve (me_request a)) as [resp|e];
            [unfold json; destruct (r_body resp) as [[v|t]|e]; simpl;
             try destruct (dec_user v); reflexivity | reflexivity]|].
    split; [intros e He; rewrite He; reflexivity|].
    split.
    + intros resp v u Hs Hb Hd; rewrite Hs; simpl; unfold json; rewrite Hb, Hd; reflexivity.
    + intros resp Hs Hd; rewrite Hs; simpl; unfold json.
      destruct (r_body resp) as [[v|t]|e]; simpl.
      * rewrite (Hd v eq_refl); simpl. eexists; reflexivity.
      * eexists; reflexivity.
      * eexists; reflexivity.
  - intros l Hl; unfold dec_user, req_field; simpl; rewrite Hl; reflexivity.
Qed.

Lemma run_abind {A B} serve today (m : ApiNet A) (f : A -> ApiNet B) :
  run serve today (abind m f)
  = let '(r1, x) := run serve today m in
    let '(r2, y) := run serve today (f x) in (app r1 r2, y).
Proof.
  induction m as [x|req k IH|k IH]; simpl.
  - destruct (run serve today (f x)); reflexivity.
  - rewrite IH. destruct (run serve today (k (serve req))) as [r1 x].
    destruct (run serve today (f x)); reflexivity.
  - apply IH.
Qed.

Definition create_request (ua : UserAccess) (name : string) : ApiRequest :=
  {| a_method := "POST";
     a_url := api_endpoint ("/users/" ++ id (ua_user ua) ++ "/playlists");
     a_query := [];
     a_headers := authorize (ua_access ua) [];
     a_body := Some (VObj [("collaborative", VBool false); ("description", VStr "");
                           ("name", VStr name); ("public", VBool false)]) |}.

Definition body_field (k : string) (r : ApiRequest) : option Value :=
  match a_body r with
  | Some (VObj l) => match lookup k l with One v => Some v | _ => None end
  | _ => None
  end.

Definition sample_user_access : UserAccess :=
  {| ua_access := sample_access 3600; ua_user := {| display_name := "Ann"; id := "ann" |} |}.

(** [update_playlist_tracks] (PUT) and [add_50_to_playlist] (POST) send
    the track URIs, in order, to /v1/playlists/<id>/tracks and report
    success for any response that arrives, whatever its status or body;
    only a failure to send is an error. *)
Theorem tracks_calls_ignore_response :
  forall (be : ReqwestError) (ua : UserAccess) (pid : string) (uris : list string) serve today,
    bearer_ok (ua_access ua) = true ->
    a_url (tracks_request "PUT" ua pid uris)
      = "https://api.spotify.com/v1/playlists/" ++ pid ++ "/tracks" /\
    body_field "uris" (tracks_request "PUT" ua pid uris) = Some (VArr (map VStr uris)) /\
    (forall resp, serve (tracks_request "PUT" ua pid uris) = Ok resp ->
       run serve today (update_playlist_tracks be ua pid uris)
       = ([tracks_request "PUT" ua pid uris], Ok tt)) /\
    (forall e, serve (tracks_request "PUT" ua pid uris) = Err e ->
       run serve today (update_playlist_tracks be ua pid uris)
       = ([tracks_request "PUT" ua pid uris], Err (RequestError e))) /\
    (forall resp, serve (tracks_request "POST" ua pid uris) = Ok resp ->
       run serve today (add_50_to_playlist be ua pid uris)
       = ([tracks_request "POST" ua pid uris], Ok tt)) /\
    (forall e, serve (tracks_request "POST" ua pid uris) = Err e ->
       run serve today (add_50_to_playlist be ua pid uris)
       = ([tracks_request "POST" ua pid uris], Err (RequestError e))).
Proof.
  intros be ua pid uris serve today H.
  split; [reflexivity|]. split; [reflexivity|].
  unfold update_playlist_tracks, add_50_to_playlist, send; rewrite H; simpl.
  repeat split; intros x Hx; rewrite Hx; reflexivity.
Qed.

Lemma tracks_calls_ignore_response_witness :
  bearer_ok (ua_access sample_user_access) = true /\
  run (fun _ => Ok {| r_status := 500; r_body := Ok (AText "oops") |})
      {| day := 1; month := 1; year := 2024 |}
      (update_playlist_tracks (DecodeError "") sample_user_access "p1" ["spotify:track:1"])
  = ([tracks_request "PUT" sample_user_access "p1" ["spotify:track:1"]], Ok tt).
Proof.
  assert (H : bearer_ok (ua_access sample_user_access) = true) by reflexivity.
  split; [exact H|].
  destruct (tracks_calls_ignore_response (DecodeError "") sample_user_access "p1"
              ["spotify:track:1"]
              (fun _ => Ok {| r_status := 500; r_body := Ok (AText "oops") |})
              {| day := 1; month := 1; year := 2024 |} H) as [_ [_ [Hp _]]].
  apply (Hp {| r_status := 500; r_body := Ok (AText "oops") |}); reflexivity.
Defined.

Lemma create_private_playlist_eq be ua name :
  create_private_playlist be ua name = send be (ua_access ua) (create_request ua name) (json dec_playlist).
Proof. reflexivity. Qed.

(** The successful run of [create_top_track_playlist]: three calls, in
    order — the top tracks for the time range (limit 50), the creation of
    a private playlist named "Spautofy <range> Top Tracks <dd-mm-yyyy>",
    and a PUT of the top tracks' URIs, in the order received, to that new
    playlist. *)
Theorem top_track_playlist_flow :
  forall (be : ReqwestError) (ua : UserAccess) (tr : TimeRange) (today : Date) serve
         resp1 v1 top resp2 v2 pl resp3,
    bearer_ok (ua_access ua) = true ->
    serve (top_tracks_request ua tr) = Ok resp1 -> r_body resp1 = Ok (AJson v1) ->
    dec_top_tracks v1 = Some top ->
    serve (create_request ua (playlist_name tr today)) = Ok resp2 ->
    r_body resp2 = Ok (AJson v2) -> dec_playlist v2 = Some pl ->
    serve (tracks_request "PUT" ua (playlist_id pl) (map uri (top_items top))) = Ok resp3 ->
    run serve today (create_top_track_playlist be ua tr)
    = ([top_tracks_request ua tr; create_request ua (playlist_name tr today);
        tracks_request "PUT" ua (playlist_id pl) (map uri (top_items top))], Ok tt) /\
    a_query (top_tracks_request ua tr) = [("time_range", time_range_display tr); ("limit", "50")].
Proof.
  intros be ua tr today serve resp1 v1 top resp2 v2 pl resp3 H Hs1 Hb1 Hd1 Hs2 Hb2 Hd2 Hs3.
  split; [|reflexivity].
  unfold create_top_track_playlist, send at 1; rewrite H.
  cbn [run]. rewrite Hs1.
  unfold atry at 1. rewrite run_abind. unfold json at 1. rewrite Hb1, Hd1. cbn [run].
  unfold atry. rewrite run_abind. rewrite create_private_playlist_eq.
  unfold send at 1; rewrite H. cbn [run]. rewrite Hs2. unfold json; rewrite Hb2, Hd2.
  cbn [run]. rewrite run_abind.
  unfold update_playlist_tracks, send; rewrite H. cbn [run]. rewrite Hs3. reflexivity.
Qed.

Definition sample_artist : Value := VObj [("id", VStr "a1"); ("name", VStr "Band")].

Definition sample_track (n : string) : Value :=
  VObj [("id", VStr n); ("uri", VStr ("spotify:track:" ++ n)); ("name", VStr "Song");
        ("album", VObj [("id", VStr "al1"); ("name", VStr "Album");
                        ("album_type", VStr "album"); ("artists", VArr [sample_artist]);
                        ("total_tracks", VNum 10); ("release_date", VStr "2020")]);
        ("artists", VArr [sample_artist])].

Definition sample_top : Value :=
  VObj [("href", VStr "h"); ("limit", VNum 50); ("offset", VNum 0); ("total", VNum 2);
        ("next", VNull); ("items", VArr [sample_track "t1"; sample_track "t2"])].

Definition sample_playlist : Value :=
  VObj [("id", VStr "p1"); ("name", VStr "n"); ("description", VStr "");
        ("collaborative", VBool false); ("href", VStr "h"); ("public", VBool false);
        ("tracks", VObj [("href", VStr "h"); ("total", VNum 0); ("offset", VNum 0);
                         ("items", VArr [])])].

Definition sample_serve (r : ApiRequest) : Result ApiResponse ReqwestError :=
  if String.eqb (a_method r) "GET" then Ok {| r_status := 200; r_body := Ok (AJson sample_top) |}
  else if String.eqb (a_method r) "POST"
  then Ok {| r_status := 201; r_body := Ok (AJson sample_playlist) |}
  else Ok {| r_status := 200; r_body := Ok (AText "") |}.

Definition sample_today : Date := {| day := 5; month := 3; year := 2024 |}.

Lemma top_track_playlist_flow_witness :
  exists top pl,
    dec_top_tracks sample_top = Some top /\ dec_playlist sample_playlist = Some pl /\
    map uri (top_items top) = ["spotify:track:t1"; "spotify:track:t2"] /\
    run sample_serve sample_today (create_top_track_playlist (DecodeError "") sample_user_access ShortTerm)
    = ([top_tracks_request sample_user_access ShortTerm;
        create_request sample_user_access "Spautofy short_term Top Tracks 05-03-2024";
        tracks_request "PUT" sample_user_access "p1" ["spotify:track:t1"; "spotify:track:t2"]],
       Ok tt).
Proof.
  destruct (dec_top_tracks sample_top) as [top|] eqn:Ht; [|discriminate Ht].
  destruct (dec_playlist sample_playlist) as [pl|] eqn:Hp; [|discriminate Hp].
  exists top, pl.
  assert (Hu : map uri (top_items top) = ["spotify:track:t1"; "spotify:track:t2"]).
  { vm_compute in Ht. injection Ht as <-. reflexivity. }
  assert (Hi : playlist_id pl = "p1").
  { vm_compute in Hp. injection Hp as <-. reflexivity. }
  split; [reflexivity|]. split; [reflexivity|]. split; [exact Hu|].
  assert (Hn : playlist_name ShortTerm sample_today = "Spautofy short_term Top Tracks 05-03-2024")
    by reflexivity.
  rewrite <- Hn, <- Hu, <- Hi.
  refine (proj1 (top_track_playlist_flow (DecodeError "") sample_user_access ShortTerm
            sample_today sample_serve _ sample_top top _ sample_playlist pl
            {| r_status := 200; r_body := Ok (AText "") |}
            eq_refl eq_refl eq_refl Ht eq_refl eq_refl Hp _)).
  rewrite Hi, Hu. reflexivity.
Defined.

(** [create_top_track_playlist] stops at the first failing step: when the
    top-tracks call cannot be sent or its body is no top-tracks list, that
    one call is all that happens (no playlist is created); when the
    playlist cannot be created (the POST cannot be sent, or its response
    cannot be read or is no playlist), its tracks are never sent.  Every
    such failure is a [RequestError]. *)
Theorem top_track_playlist_stops_early :
  forall (be : ReqwestError) (ua : UserAccess) (tr : TimeRange) (today : Date) serve,
    bearer_ok (ua_access ua) = true ->
    (forall e, serve (top_tracks_request ua tr) = Err e ->
       run serve today (create_top_track_playlist be ua tr)
       = ([top_tracks_request ua tr], Err (RequestError e))) /\
    (forall resp, serve (top_tracks_request ua tr) = Ok resp ->
       (forall v, r_body resp = Ok (AJson v) -> dec_top_tracks v = None) ->
       exists e, run serve today (create_top_track_playlist be ua tr)
                 = ([top_tracks_request ua tr], Err (RequestError e))) /\
    (forall resp v top e, serve (top_tracks_request ua tr) = Ok resp ->
       r_body resp = Ok (AJson v) -> dec_top_tracks v = Some top ->
       serve (create_request ua (playlist_name tr today)) = Err e ->
       run serve today (create_top_track_playlist be ua tr)
       = ([top_tracks_request ua tr; create_request ua (playlist_name tr today)],
          Err (RequestError e))) /\
    (forall resp v top resp2, serve (top_tracks_request ua tr) = Ok resp ->
       r_body resp = Ok (AJson v) -> dec_top_tracks v = Some top ->
       serve (create_request ua (playlist_name tr today)) = Ok resp2 ->
       (forall v2, r_body resp2 = Ok (AJson v2) -> dec_playlist v2 = None) ->
       exists e, run serve today (create_top_track_playlist be ua tr)
                 = ([top_tracks_request ua tr; create_request ua (playlist_name tr today)],
                    Err (RequestError e))).
Proof.
  intros be ua tr today serve H.
  split; [|split; [|split]].
  - intros e He. unfold create_top_track_playlist, send at 1; rewrite H.
    cbn [run]. rewrite He. reflexivity.
  - intros resp Hs Hd. unfold create_top_track_playlist, send at 1; rewrite H.
    cbn [run]. rewrite Hs.
    unfold atry at 1. rewrite run_abind. unfold json at 1.
    destruct (r_body resp) as [[v|t]|e]; cbn [run].
    + rewrite (Hd v eq_refl). eexists; reflexivity.
    + eexists; reflexivity.
    + eexists; reflexivity.
  - intros resp v top e Hs Hb Hd He.
    unfold create_top_track_playlist, send at 1; rewrite H.
    cbn [run]. rewrite Hs.
    unfold atry at 1. rewrite run_abind. unfold json at 1. rewrite Hb, Hd. cbn [run].
    unfold atry. rewrite run_abind. rewrite create_private_playlist_eq.
    unfold send at 1; rewrite H. cbn [run]. rewrite He. reflexivity.
  - intros resp v top resp2 Hs Hb Hd Hs2 Hd2.
    unfold create_top_track_playlist, send at 1; rewrite H.
    cbn [run]. rewrite Hs.
    unfold atry at 1. rewrite run_abind. unfold json at 1. rewrite Hb, Hd. cbn [run].
    unfold atry. rewrite run_abind. rewrite create_private_playlist_eq.
    unfold send at 1; rewrite H. cbn [run]. rewrite Hs2. cbn beta iota.
    unfold json. destruct (r_body resp2) as [[v2|t]|e]; cbn [run].
    + rewrite (Hd2 v2 eq_refl). eexists; reflexivity.
    + eexists; reflexivity.
    + eexists; reflexivity.
Qed.

Lemma top_track_playlist_stops_early_witness :
  bearer_ok (ua_access sample_user_access) = true /\
  run (fun _ => Err (ConnectError "offline")) sample_today
      (create_top_track_playlist (DecodeError "") sample_user_access LongTerm)
  = ([top_tracks_request sample_user_access LongTerm],
     Err (RequestError (ConnectError "offline"))).
Proof.
  assert (H : bearer_ok (ua_access sample_user_access) = true) by reflexivity.
  split; [exact H|].
  exact (proj1 (top_track_playlist_stops_early (DecodeError "") sample_user_access LongTerm
                  sample_today (fun _ => Err (ConnectError "offline")) H)
               (ConnectError "offline") eq_refl).
Defined.

(** The three playlists of one day get three different names. *)
Theorem playlist_names_distinct :
  forall (today : Date) (t1 t2 : TimeRange),
    playlist_name t1 today = playlist_name t2 today -> t1 = t2.
Proof.
  intros today [] [] H; try reflexivity; unfold playlist_name in H; simpl in H;
    discriminate H.
Qed.

Lemma playlist_names_distinct_witness :
  playlist_name MediumTerm sample_today = playlist_name MediumTerm sample_today /\
  MediumTerm = MediumTerm.
Proof.
  split; [reflexivity|].
  exact (playlist_names_distinct sample_today MediumTerm MediumTerm eq_refl).
Defined.

End ApiFacts.

Module MainFacts.
Import Selection SelectionFacts ApiCalls.

Lemma run_loop_keeps :
  forall events s, well_formed s ->
    match run_loop events s with
    | Panicked => False
    | Canceled => True
    | Confirmed s' | Waiting s' => well_formed s' /\ action_names s' = action_names s
    end.
Proof.
  induction events as [|e rest IH]; intros s Hw; simpl; [split; auto|].
  destruct (handle_events_step e s Hw) as [a [s' [H [Hw' [Hn _]]]]].
  rewrite H. destruct a; [split; auto | exact I |].
  specialize (IH s' Hw'). destruct (run_loop rest s'); auto.
  - destruct IH; split; congruence.
  - destruct IH; split; congruence.
Qed.

Lemma confirmed_three_flags :
  forall events s, select_actions events = Confirmed s ->
    exists b0 b1 b2, selected s = [b0; b1; b2].
Proof.
  intros events s H.
  assert (Hw : well_formed (new ACTION_NAMES DEFAULT_SELECTION))
    by (unfold well_formed; simpl; repeat split; lia).
  pose proof (run_loop_keeps events _ Hw) as K. unfold select_actions in H.
  rewrite H in K. destruct K as [[Hl _] Hn].
  rewrite Hn in Hl. simpl in Hl.
  destruct (selected s) as [|b0 [|b1 [|b2 [|b3 r]]]]; simpl in Hl; try discriminate.
  exists b0, b1, b2; reflexivity.
Qed.

(** The time ranges whose flags are set, in the order of [main]'s tests. *)
Definition selected_ranges (sel : list bool) : list TimeRange :=
  app (if nth 0 sel false then [ShortTerm] else [])
      (app (if nth 1 sel false then [MediumTerm] else [])
           (if nth 2 sel false then [LongTerm] else [])).

(** After the user confirms a selection, [main] never completes normally.
    The selection has three flags, so once every selected playlist was
    created the fourth test [selection.selected[3]] panics; a failing
    playlist action ends [main] with that action's error, after the
    selected ranges before it were attempted and before any later one. *)
Theorem main_never_returns_ok :
  forall (events : list (option Event)) (s : ActionSelectionList)
         (run_action : TimeRange -> Result unit AuthorizeError),
    select_actions events = Confirmed s ->
    snd (main_dispatch (selected s) run_action) <> MainOk /\
    ((forall tr, run_action tr = Ok tt) ->
       main_dispatch (selected s) run_action = (selected_ranges (selected s), MainPanic 3)) /\
    (forall pre tr post e,
       selected_ranges (selected s) = app pre (tr :: post) ->
       (forall t, In t pre -> run_action t = Ok tt) -> run_action tr = Err e ->
       main_dispatch (selected s) run_action = (app pre [tr], MainErr e)).
Proof.
  intros events s run_action H.
  destruct (confirmed_three_flags events s H) as [b0 [b1 [b2 Hs]]].
  rewrite Hs. split; [|split].
  - unfold main_dispatch, main_steps.
    destruct b0, b1, b2; simpl;
      repeat match goal with
      | |- context [run_action ?t] => destruct (run_action t)
      end; simpl; discriminate.
  - intros Hok. unfold main_dispatch, main_steps, selected_ranges.
    destruct b0, b1, b2; simpl; rewrite ?Hok; reflexivity.
  - intros pre tr post e Hsplit Hpre He.
    unfold selected_ranges in Hsplit.
    destruct b0, b1, b2; simpl in Hsplit;
      destruct pre as [|p0 [|p1 [|p2 pre]]]; simpl in Hsplit;
      inversion Hsplit; subst;
      try (exfalso; eapply app_cons_not_nil; eassumption);
      unfold main_dispatch, main_steps; simpl;
      repeat match goal with
      | |- context [run_action ?t] =>
          first [rewrite (Hpre t) by (simpl; auto) | rewrite He]
      end; reflexivity.
Qed.

Definition sample_failing_action (tr : TimeRange) : Result unit AuthorizeError :=
  match tr with
  | MediumTerm => Err (RequestError (ConnectError "offline"))
  | _ => Ok tt
  end.

Lemma main_never_returns_ok_witness :
  select_actions [Some (Key Press (Char " "%char))] = Confirmed (new ACTION_NAMES DEFAULT_SELECTION) /\
  main_dispatch (selected (new ACTION_NAMES DEFAULT_SELECTION)) (fun _ => Ok tt)
  = ([ShortTerm; MediumTerm], MainPanic 3) /\
  main_dispatch (selected (new ACTION_NAMES DEFAULT_SELECTION)) sample_failing_action
  = ([ShortTerm; MediumTerm], MainErr (RequestError (ConnectError "offline"))).
Proof.
  assert (H : select_actions [Some (Key Press (Char " "%char))]
              = Confirmed (new ACTION_NAMES DEFAULT_SELECTION)) by reflexivity.
  split; [exact H|]. split.
  - exact (proj1 (proj2 (main_never_returns_ok _ _ (fun _ => Ok tt) H)) (fun _ => eq_refl)).
  - apply (proj2 (proj2 (main_never_returns_ok _ _ sample_failing_action H))
             [ShortTerm] MediumTerm []).
    + reflexivity.
    + intros t [Ht|[]]; subst t; reflexivity.
    + reflexivity.
Defined.

End MainFacts.
